(** * Avatar Animator (src/App.tsx): a shallow embedding of the [App]
    component's session state, its event handlers and the asynchronous
    [generateAnimation] job orchestrator.

    The job is split at each [await]: every synchronous segment between two
    awaits is a computation in a small state/exception/log monad over the
    React session state, and the segment ends either on a pending [Await]
    or with the job finished.  External services (the Veo SDK, [fetch],
    [setTimeout], the AI Studio host) answer the awaits. *)

From Stdlib Require Import String Ascii List Bool Arith NArith Lia.
Import ListNotations.
Open Scope string_scope.
Open Scope list_scope.

(** ** JavaScript values used by the component *)

(** [!!s] for a [string | null]: [null] and [""] are falsy. *)
Definition truthy (o : option string) : bool :=
  match o with
  | Some s => negb (String.eqb s "")
  | None => false
  end.

(** [p] is a prefix of [s]. *)
Fixpoint prefixb (p s : string) : bool :=
  match p, s with
  | EmptyString, _ => true
  | String c p', String d s' => Ascii.eqb c d && prefixb p' s'
  | String _ _, EmptyString => false
  end.

(** [s.includes(p)]. *)
Fixpoint includes (s p : string) : bool :=
  prefixb p s ||
  match s with
  | EmptyString => false
  | String _ s' => includes s' p
  end.

(** [s.split(sep)] for a one-character separator. *)
Fixpoint split (sep : ascii) (s : string) : list string :=
  match s with
  | EmptyString => [""]
  | String c s' =>
      let rest := split sep s' in
      if Ascii.eqb c sep then "" :: rest
      else match rest with
           | r :: rs => String c r :: rs
           | [] => [String c ""]
           end
  end.

(** ** Constants of App.tsx *)

Definition ASPECT_RATIOS : list (string * string) :=
  [("9:16 (Portrait)", "9:16"); ("16:9 (Landscape)", "16:9")].

Definition loadingMessages : list string :=
  [ "Analyzing avatar features...";
    "Simulating physics and movement...";
    "Rendering commercial lighting...";
    "Finalizing high-quality motion...";
    "Almost there, polishing textures..." ].

Definition default_prompt : string :=
  "Natural movement in high quality commercial lighting".

Definition prompt_template : string := "Animate this character: ".

Definition not_found_signature : string := "Requested entity was not found".

Definition key_expired_message : string :=
  "API Key session expired or invalid. Please select a paid project key.".

Definition generic_error_message : string :=
  "An error occurred during generation. Please try again.".

Definition no_video_message : string :=
  "No video was generated in the response.".

Definition poll_delay_ms : N := 10000%N.

(** ** Data model *)

(** The React state of [App] (lines 33-40). *)
Record Session := mkSession {
  hasApiKey : bool;
  selectedImage : option string;
  prompt : string;
  aspectRatio : string;
  isGenerating : bool;
  loadingStep : string;
  generatedVideoUrl : option string;
  error : option string
}.

Definition initial_session : Session :=
  mkSession false None "" "9:16" false "" None None.

(** A thrown JavaScript [Error]: only its (possibly missing) [message]
    is read by the [catch] block. *)
Record Error := mkError { err_message : option string }.

(** The SDK's operation object, with the optional chain
    [response?.generatedVideos?.[0]?.video?.uri]. *)
Record Video := mkVideo { uri : option string }.
Record GeneratedVideo := mkGeneratedVideo { video : option Video }.
Record GenerateVideosResponse :=
  mkResponse { generatedVideos : option (list GeneratedVideo) }.
Record Operation := mkOperation {
  op_name : string;
  done : bool;
  response : option GenerateVideosResponse
}.

Definition first_video_uri (op : Operation) : option string :=
  match response op with
  | Some r =>
      match generatedVideos r with
      | Some (g :: _) =>
          match video g with Some v => uri v | None => None end
      | _ => None
      end
  | None => None
  end.

(** The argument of [ai.models.generateVideos] (lines 91-103). *)
Record GenerateVideosRequest := mkRequest {
  req_model : string;
  req_prompt : string;
  req_imageBytes : option string;
  req_mimeType : option string;
  req_numberOfVideos : nat;
  req_resolution : string;
  req_aspectRatio : string
}.

(** Opaque handles: a [fetch] [Response] and a [Blob]. *)
Definition FetchResponse := string.
Definition Blob := string.

(** Observable effects, in the order the code performs them. *)
Inductive Effect :=
| FxSetHasApiKey (b : bool)
| FxSetSelectedImage (i : option string)
| FxSetPrompt (p : string)
| FxSetAspectRatio (a : string)
| FxSetIsGenerating (b : bool)
| FxSetLoadingStep (s : string)
| FxSetGeneratedVideoUrl (u : option string)
| FxSetError (e : option string)
| FxConsoleError (label : option string) (e : Error)
| FxGenerateVideos (req : GenerateVideosRequest)
| FxSetTimeout (ms : N)
| FxGetVideosOperation (op : Operation)
| FxFetch (url : string)
| FxBlob (r : FetchResponse)
| FxHasSelectedApiKey
| FxOpenSelectKey.

(** ** A state / exception / log monad *)

Inductive Exc (A : Type) :=
| Ok (a : A)
| Raise (e : Error).
Arguments Ok {A} a.
Arguments Raise {A} e.

Definition M (A : Type) := Session -> Session * list Effect * Exc A.

Definition ret {A} (a : A) : M A := fun s => (s, [], Ok a).

Definition bind {A B} (m : M A) (k : A -> M B) : M B :=
  fun s =>
    match m s with
    | (s1, fx1, Ok a) =>
        let '(s2, fx2, r) := k a s1 in (s2, fx1 ++ fx2, r)
    | (s1, fx1, Raise e) => (s1, fx1, Raise e)
    end.

Notation "x <- m ;; k" := (bind m (fun x => k))
  (at level 61, m at next level, right associativity).
Notation "m ;;; k" := (bind m (fun _ => k))
  (at level 61, right associativity).

Definition throw {A} (e : Error) : M A := fun s => (s, [], Raise e).

Definition get : M Session := fun s => (s, [], Ok s).

Definition emit (fx : Effect) : M unit := fun s => (s, [fx], Ok tt).

(** The React setters, logged. *)
Definition setHasApiKey (b : bool) : M unit :=
  fun s => (mkSession b (selectedImage s) (prompt s) (aspectRatio s)
              (isGenerating s) (loadingStep s) (generatedVideoUrl s) (error s),
            [FxSetHasApiKey b], Ok tt).
Definition setSelectedImage (i : option string) : M unit :=
  fun s => (mkSession (hasApiKey s) i (prompt s) (aspectRatio s)
              (isGenerating s) (loadingStep s) (generatedVideoUrl s) (error s),
            [FxSetSelectedImage i], Ok tt).
Definition setPrompt (p : string) : M unit :=
  fun s => (mkSession (hasApiKey s) (selectedImage s) p (aspectRatio s)
              (isGenerating s) (loadingStep s) (generatedVideoUrl s) (error s),
            [FxSetPrompt p], Ok tt).
Definition setAspectRatio (a : string) : M unit :=
  fun s => (mkSession (hasApiKey s) (selectedImage s) (prompt s) a
              (isGenerating s) (loadingStep s) (generatedVideoUrl s) (error s),
            [FxSetAspectRatio a], Ok tt).
Definition setIsGenerating (b : bool) : M unit :=
  fun s => (mkSession (hasApiKey s) (selectedImage s) (prompt s) (aspectRatio s)
              b (loadingStep s) (generatedVideoUrl s) (error s),
            [FxSetIsGenerating b], Ok tt).
Definition setLoadingStep (l : string) : M unit :=
  fun s => (mkSession (hasApiKey s) (selectedImage s) (prompt s) (aspectRatio s)
              (isGenerating s) l (generatedVideoUrl s) (error s),
            [FxSetLoadingStep l], Ok tt).
Definition setGeneratedVideoUrl (u : option string) : M unit :=
  fun s => (mkSession (hasApiKey s) (selectedImage s) (prompt s) (aspectRatio s)
              (isGenerating s) (loadingStep s) u (error s),
            [FxSetGeneratedVideoUrl u], Ok tt).
Definition setError (e : option string) : M unit :=
  fun s => (mkSession (hasApiKey s) (selectedImage s) (prompt s) (aspectRatio s)
              (isGenerating s) (loadingStep s) (generatedVideoUrl s) e,
            [FxSetError e], Ok tt).

(** ** The job orchestrator [generateAnimation] (lines 74-143) *)

(** [process.env.API_KEY] and [URL.createObjectURL]. *)
Record Env := mkEnv {
  api_key : string;
  createObjectURL : Blob -> string
}.

(** The point at which a started job is suspended. *)
Inductive Await :=
| AwGenerateVideos
| AwTimeout (op : Operation) (messageIndex : nat)
| AwGetVideosOperation (messageIndex : nat)
| AwFetch (url : string)
| AwBlob (r : FetchResponse).

(** What the outside world resolves (or rejects) an await with. *)
Inductive Reply :=
| RGenerateVideos (r : Exc Operation)
| RTimeout
| RGetVideosOperation (r : Exc Operation)
| RFetch (r : Exc FetchResponse)
| RBlob (r : Exc Blob).

Inductive Next :=
| Pending (aw : Await)
| Finished.

(** JavaScript [a || b] on a [string | undefined]. *)
Definition or_else (o : option string) (d : string) : string :=
  if truthy o then match o with Some a => a | None => d end else d.

(** [loadingMessages[messageIndex % loadingMessages.length]]. *)
Definition loading_message (messageIndex : nat) : string :=
  nth (messageIndex mod length loadingMessages) loadingMessages "".

(** [operation.response?.generatedVideos?.[0]?.video?.uri] when truthy. *)
Definition download_link (op : Operation) : option string :=
  match first_video_uri op with
  | Some d => if String.eqb d "" then None else Some d
  | None => None
  end.

Section Orchestrator.

Variable env : Env.

(** Lines 121-129: the code after the poll loop. *)
Definition after_loop (op : Operation) : M Next :=
  match download_link op with
  | Some downloadLink =>
      setLoadingStep "Downloading final commercial asset..." ;;;
      let url := (downloadLink ++ "&key=" ++ api_key env)%string in
      emit (FxFetch url) ;;;
      ret (Pending (AwFetch url))
  | None => throw (mkError (Some no_video_message))
  end.

(** Lines 114-119: the test of [while (!operation.done)] and one loop
    body up to its [await] on the timer. *)
Definition loop_head (op : Operation) (messageIndex : nat) : M Next :=
  if negb (done op) then
    setLoadingStep (loading_message messageIndex) ;;;
    emit (FxSetTimeout poll_delay_ms) ;;;
    ret (Pending (AwTimeout op (S messageIndex)))
  else after_loop op.

(** The body of the [try] block resumed after an await. *)
Definition resume (aw : Await) (r : Reply) : option (M Next) :=
  match aw, r with
  | AwGenerateVideos, RGenerateVideos (Ok op) => Some (loop_head op 0)
  | AwGenerateVideos, RGenerateVideos (Raise e) => Some (throw e)
  | AwTimeout op i, RTimeout =>
      Some (emit (FxGetVideosOperation op) ;;;
            ret (Pending (AwGetVideosOperation i)))
  | AwGetVideosOperation i, RGetVideosOperation (Ok op) => Some (loop_head op i)
  | AwGetVideosOperation _, RGetVideosOperation (Raise e) => Some (throw e)
  | AwFetch _, RFetch (Ok resp) =>
      Some (emit (FxBlob resp) ;;; ret (Pending (AwBlob resp)))
  | AwFetch _, RFetch (Raise e) => Some (throw e)
  | AwBlob _, RBlob (Ok blob) =>
      Some (setGeneratedVideoUrl (Some (createObjectURL env blob)) ;;;
            ret Finished)
  | AwBlob _, RBlob (Raise e) => Some (throw e)
  | _, _ => None
  end.

End Orchestrator.

(** Lines 130-138. *)
Definition catch_block (err : Error) : M unit :=
  emit (FxConsoleError None err) ;;;
  let found := match err_message err with
               | Some m => includes m not_found_signature
               | None => false
               end in
  if found then
    setHasApiKey false ;;;
    setError (Some key_expired_message)
  else setError (Some (or_else (err_message err) generic_error_message)).

(** Lines 139-142. *)
Definition finally_block : M unit :=
  setIsGenerating false ;;; setLoadingStep "".

(** [try { body } catch (err) { ... } finally { ... }] around a segment
    that may suspend: the handlers only run once the body completes. *)
Definition try_catch_finally (body : M Next) : M Next :=
  fun s =>
    match body s with
    | (s1, fx1, Ok (Pending aw)) => (s1, fx1, Ok (Pending aw))
    | (s1, fx1, Ok Finished) =>
        let '(s2, fx2, x) := (finally_block ;;; ret Finished) s1 in
        (s2, fx1 ++ fx2, x)
    | (s1, fx1, Raise e) =>
        let '(s2, fx2, x) := (catch_block e ;;; finally_block ;;; ret Finished) s1 in
        (s2, fx1 ++ fx2, x)
    end.

(** Lines 86-103: the request, from the closure's [prompt], [aspectRatio]
    and [selectedImage]. *)
Definition build_request (prompt aspectRatio img : string) : GenerateVideosRequest :=
  let base64Data := nth_error (split ","%char img) 1 in
  let mimeType := nth_error (split ":"%char (hd "" (split ";"%char img))) 1 in
  mkRequest "veo-3.1-fast-generate-preview"
    (prompt_template ++ or_else (Some prompt) default_prompt)%string
    base64Data mimeType 1 "720p" aspectRatio.

(** Lines 74-103: the synchronous part of [generateAnimation], up to the
    first [await] (on [ai.models.generateVideos]).  The component state it
    reads ([selectedImage], [prompt], [aspectRatio]) is the one captured by
    the render that installed the click handler. *)
Definition generateAnimation : M Next :=
  s <- get ;;
  match selectedImage s with
  | None => ret Finished
  | Some img =>
      if String.eqb img "" then ret Finished
      else
        setIsGenerating true ;;;
        setError None ;;;
        setLoadingStep "Initializing AI engine..." ;;;
        try_catch_finally (
          setLoadingStep "Uploading reference frame to Veo..." ;;;
          emit (FxGenerateVideos (build_request (prompt s) (aspectRatio s) img)) ;;;
          ret (Pending AwGenerateVideos))
  end.

(** One resumption of a suspended job: the rest of the [try] body, then
    the [catch]/[finally] handlers if the body completes. *)
Definition job_step (env : Env) (aw : Await) (r : Reply) : option (M Next) :=
  option_map try_catch_finally (resume env aw r).

(** ** Sequential runs against a scripted outside world *)

(** [report 0] is what [generateVideos] resolves with; [report i]
    (i >= 1) is what the i-th [getVideosOperation] poll resolves with. *)
Record World := mkWorld {
  report : nat -> Exc Operation;
  w_fetch : string -> Exc FetchResponse;
  w_blob : FetchResponse -> Exc Blob
}.

Definition answer (w : World) (aw : Await) : Reply :=
  match aw with
  | AwGenerateVideos => RGenerateVideos (report w 0)
  | AwTimeout _ _ => RTimeout
  | AwGetVideosOperation i => RGetVideosOperation (report w i)
  | AwFetch url => RFetch (w_fetch w url)
  | AwBlob r => RBlob (w_blob w r)
  end.

(** Drive a suspended job for at most [fuel] resumptions; [None] when it
    is still suspended after them. *)
Fixpoint run_job (env : Env) (w : World) (fuel : nat) (aw : Await) (s : Session)
  : option (Session * list Effect) :=
  match fuel with
  | 0 => None
  | S f =>
      match job_step env aw (answer w aw) with
      | None => None
      | Some m =>
          match m s with
          | (s1, fx1, Ok (Pending aw')) =>
              match run_job env w f aw' s1 with
              | Some (s2, fx2) => Some (s2, fx1 ++ fx2)
              | None => None
              end
          | (s1, fx1, _) => Some (s1, fx1)
          end
      end
  end.

(** A whole invocation of [generateAnimation]. *)
Definition generate_run (env : Env) (w : World) (fuel : nat) (s : Session)
  : option (Session * list Effect) :=
  match generateAnimation s with
  | (s1, fx1, Ok (Pending aw)) =>
      match run_job env w fuel aw s1 with
      | Some (s2, fx2) => Some (s2, fx1 ++ fx2)
      | None => None
      end
  | (s1, fx1, _) => Some (s1, fx1)
  end.

Definition terminates (env : Env) (w : World) (s : Session) : Prop :=
  exists fuel r, generate_run env w fuel s = Some r.

(** ** The other handlers of [App] *)

Definition PRESET_POSITIONS : list string :=
  [ "Walking confidently through a modern office, waving at colleagues";
    "Sitting at a coffee shop table, working on a laptop, and taking a sip of coffee";
    "Giving a professional presentation, gesturing towards a digital screen";
    "Doing an energetic 'thumbs up' and winking at the camera";
    "Holding a smartphone and showing the screen with a bright smile" ].

(** Lines 48-55: [checkApiKey] after [hasSelectedApiKey()] settles. *)
Definition checkApiKey_settled (r : Exc bool) : M unit :=
  match r with
  | Ok selected => setHasApiKey selected
  | Raise e => emit (FxConsoleError (Some "API key check failed") e)
  end.

(** Lines 57-61. *)
Definition handleSelectKey : M unit :=
  emit FxOpenSelectKey ;;; setHasApiKey true.

(** Lines 145-165 and 271-273: which screen is rendered, and whether the
    Generate button is disabled. *)
Inductive Screen := GateScreen | MainScreen.

Definition render (s : Session) : Screen :=
  if negb (hasApiKey s) then GateScreen else MainScreen.

Definition generate_disabled (s : Session) : bool :=
  negb (truthy (selectedImage s)) || isGenerating s.

(** ** The page: one session, the jobs in flight, the mount-time check *)

Record Global := mkGlobal {
  g_session : Session;
  g_jobs : list Await;
  g_check_pending : bool;
  g_log : list Effect
}.

(** After mount: [useEffect] has called [checkApiKey]. *)
Definition initial_global : Global :=
  mkGlobal initial_session [] true [FxHasSelectedApiKey].

Inductive Event :=
| EvCheckKeySettled (r : Exc bool)
| EvSelectKey
| EvUpload (dataUrl : string)
| EvEditPrompt (p : string)
| EvPreset (i : nat)
| EvAspect (i : nat)
| EvGenerate
| EvJob (j : nat) (r : Reply)
| EvReload.

Definition apply_m {A} (m : M A) (g : Global) : Global * Exc A :=
  let '(s', fx, x) := m (g_session g) in
  (mkGlobal s' (g_jobs g) (g_check_pending g) (g_log g ++ fx), x).

Definition apply_unit (m : M unit) (g : Global) : Global := fst (apply_m m g).

(** Replace the [j]-th job by its continuation, or drop it once finished. *)
Fixpoint update_job (l : list Await) (j : nat) (n : Next) : list Await :=
  match l, j with
  | [], _ => []
  | _ :: l', 0 => match n with Pending aw => aw :: l' | Finished => l' end
  | a :: l', S j' => a :: update_job l' j' n
  end.

Definition on_main (g : Global) : bool :=
  match render (g_session g) with MainScreen => true | GateScreen => false end.

Definition gstep (env : Env) (g : Global) (ev : Event) : option Global :=
  match ev with
  | EvCheckKeySettled r =>
      if g_check_pending g then
        let g' := apply_unit (checkApiKey_settled r) g in
        Some (mkGlobal (g_session g') (g_jobs g') false (g_log g'))
      else None
  | EvSelectKey =>
      if on_main g then None else Some (apply_unit handleSelectKey g)
  | EvUpload d =>
      if on_main g then Some (apply_unit (setSelectedImage (Some d)) g) else None
  | EvEditPrompt p =>
      if on_main g then Some (apply_unit (setPrompt p) g) else None
  | EvPreset i =>
      match on_main g, nth_error PRESET_POSITIONS i with
      | true, Some p => Some (apply_unit (setPrompt p) g)
      | _, _ => None
      end
  | EvAspect i =>
      match on_main g, nth_error ASPECT_RATIOS i with
      | true, Some (_, v) => Some (apply_unit (setAspectRatio v) g)
      | _, _ => None
      end
  | EvGenerate =>
      if on_main g && negb (generate_disabled (g_session g)) then
        let '(g', x) := apply_m generateAnimation g in
        match x with
        | Ok (Pending aw) =>
            Some (mkGlobal (g_session g') (g_jobs g' ++ [aw])
                           (g_check_pending g') (g_log g'))
        | _ => Some g'
        end
      else None
  | EvJob j r =>
      match nth_error (g_jobs g) j with
      | None => None
      | Some aw =>
          match job_step env aw r with
          | None => None
          | Some m =>
              let '(g', x) := apply_m m g in
              let n := match x with Ok n => n | Raise _ => Finished end in
              Some (mkGlobal (g_session g') (update_job (g_jobs g') j n)
                             (g_check_pending g') (g_log g'))
          end
      end
  | EvReload => Some initial_global
  end.

Inductive reachable (env : Env) : Global -> Prop :=
| reachable_init : reachable env initial_global
| reachable_step g ev g' :
    reachable env g -> gstep env g ev = Some g' -> reachable env g'.

Fixpoint gsteps (env : Env) (g : Global) (evs : list Event) : option Global :=
  match evs with
  | [] => Some g
  | ev :: evs' =>
      match gstep env g ev with
      | Some g' => gsteps env g' evs'
      | None => None
      end
  end.

(** ** The rest of the page *)




(** Line 244: the label of a preset button, [preset.split(',')[0] + '...']. *)
Definition preset_label (preset : string) : string :=
  (hd "" (split ","%char preset) ++ "...")%string.

(** Lines 253-265: which Format button is highlighted
    ([aspectRatio === ar.value]), in the order of [ASPECT_RATIOS]. *)
Definition aspect_selected (s : Session) : list bool :=
  map (fun ar => String.eqb (aspectRatio s) (snd ar)) ASPECT_RATIOS.

(** Lines 304-366: the panels of the preview pane, in the order the code
    lists them, each with its own condition. *)
Inductive Panel := PanelPlaceholder | PanelGenerating | PanelVideo | PanelReady.

Definition preview_panels (s : Session) : list Panel :=
  (if negb (isGenerating s) && negb (truthy (generatedVideoUrl s))
      && negb (truthy (selectedImage s)) then [PanelPlaceholder] else [])
  ++ (if isGenerating s then [PanelGenerating] else [])
  ++ (if truthy (generatedVideoUrl s) && negb (isGenerating s) then [PanelVideo] else [])
  ++ (if truthy (selectedImage s) && negb (isGenerating s)
         && negb (truthy (generatedVideoUrl s)) then [PanelReady] else []).

(** Lines 293-297: the error box is shown when [error] is truthy. *)
Definition error_box_shown (s : Session) : bool := truthy (error s).

(** ** Auxiliary definitions for the proofs *)

Definition final {A} (r : Session * list Effect * Exc A) : Session := fst (fst r).

(** The session with [loadingStep] blanked: everything but the status line. *)
Definition erase_loading (s : Session) : Session := final (setLoadingStep "" s).

Ltac run_m :=
  repeat (cbv [bind ret throw get emit final erase_loading
               setHasApiKey setSelectedImage setPrompt setAspectRatio
               setIsGenerating setLoadingStep setGeneratedVideoUrl setError
               try_catch_finally catch_block finally_block]; simpl).

(** Compute through the [catch] handler for the error [e]. *)
Ltac settle_catch e :=
  simpl; run_m;
  try (destruct (err_message e) as [?msg|];
       [destruct (includes msg not_found_signature)|]);
  run_m.

Definition with_loading (s : Session) (l : string) : Session :=
  final (setLoadingStep l s).

Definition prepend (fx : list Effect) (o : option (Session * list Effect))
  : option (Session * list Effect) :=
  match o with
  | Some (s2, fx2) => Some (s2, fx ++ fx2)
  | None => None
  end.

Definition continue_with (k : Await -> Session -> option (Session * list Effect))
  (r : Session * list Effect * Exc Next) : option (Session * list Effect) :=
  match r with
  | (s1, fx1, Ok (Pending aw')) => prepend fx1 (k aw' s1)
  | (s1, fx1, _) => Some (s1, fx1)
  end.

Definition poll_iteration_fx (ops : nat -> Operation) (k : nat) : list Effect :=
  [FxSetLoadingStep (loading_message k); FxSetTimeout poll_delay_ms;
   FxGetVideosOperation (ops k)].

Definition last_loading (k n : nat) (d : string) : string :=
  match n with 0 => d | S n' => loading_message (k + n') end.

(** The effects of the code after the loop on a successful download. *)
Definition download_fx (env : Env) (url : string) (resp : FetchResponse) (b : Blob)
  : list Effect :=
  [FxSetLoadingStep "Downloading final commercial asset..."; FxFetch url;
   FxBlob resp; FxSetGeneratedVideoUrl (Some (createObjectURL env b));
   FxSetIsGenerating false; FxSetLoadingStep ""].

Definition submit_fx (s : Session) (img : string) : list Effect :=
  [FxSetIsGenerating true; FxSetError None;
   FxSetLoadingStep "Initializing AI engine...";
   FxSetLoadingStep "Uploading reference frame to Veo...";
   FxGenerateVideos (build_request (prompt s) (aspectRatio s) img)].

Definition started (s : Session) : Session :=
  mkSession (hasApiKey s) (selectedImage s) (prompt s) (aspectRatio s)
    true "Uploading reference frame to Veo..." (generatedVideoUrl s) None.

(** A report that ends the poll loop: a rejection, or [done]. *)
Definition stops (r : Exc Operation) : bool :=
  match r with
  | Raise _ => true
  | Ok op => done op
  end.

(** The error a reply rejects an await with, if any. *)
Definition rejection (r : Reply) : option Error :=
  match r with
  | RGenerateVideos (Raise e) | RGetVideosOperation (Raise e)
  | RFetch (Raise e) | RBlob (Raise e) => Some e
  | _ => None
  end.

(** The operation a reply delivers to the poll loop, if any. *)
Definition delivered (r : Reply) : option Operation :=
  match r with
  | RGenerateVideos (Ok op) | RGetVideosOperation (Ok op) => Some op
  | _ => None
  end.

(** [err.message?.includes("Requested entity was not found")]. *)
Definition is_not_found (e : Error) : bool :=
  match err_message e with
  | Some m => includes m not_found_signature
  | None => false
  end.

(** A sample environment for concrete runs. *)
Definition sample_env : Env := mkEnv "KEY" (fun b => ("blob:" ++ b)%string).

(** The invariant of the page: at most one job in flight, and
    [isGenerating] is set exactly while one is. *)
Definition single_job (g : Global) : Prop :=
  length (g_jobs g) <= 1 /\ (isGenerating (g_session g) = true <-> g_jobs g <> []).

(** Sample data for concrete runs. *)
Definition sample_image : string := "data:image/png;base64,AAAA".

Definition sample_done_op : Operation :=
  mkOperation "operations/1" true
    (Some (mkResponse (Some [mkGeneratedVideo
                               (Some (mkVideo (Some "https://files/v1?alt=media")))]))).

Definition sample_pending_op : Operation := mkOperation "operations/1" false None.

Definition sample_session : Session :=
  mkSession true (Some sample_image) "" "9:16" false "" None None.

(** Not done twice, then done. *)
Definition sample_ops (j : nat) : Operation :=
  if Nat.ltb j 2 then sample_pending_op else sample_done_op.

Definition sample_world : World :=
  mkWorld (fun j => Ok (sample_ops j)) (fun _ => Ok "response") (fun _ => Ok "video-bytes").

(** A service that never finishes. *)
Definition stalled_world : World :=
  mkWorld (fun _ => Ok sample_pending_op) (fun _ => Ok "response") (fun _ => Ok "video-bytes").

Definition not_found_error : Error :=
  mkError (Some "Requested entity was not found.").

Definition no_video_op : Operation :=
  mkOperation "operations/2" true (Some (mkResponse (Some []))).

(** Generate successfully, then generate again and have the submission
    rejected. *)
Definition success_then_failure : list Event :=
  [EvSelectKey; EvUpload sample_image; EvGenerate;
   EvJob 0 (RGenerateVideos (Ok sample_done_op));
   EvJob 0 (RFetch (Ok "response"));
   EvJob 0 (RBlob (Ok "video-bytes"));
   EvGenerate;
   EvJob 0 (RGenerateVideos (Raise (mkError (Some "Quota exceeded"))))].

(** ** Auxiliary definitions for the extra properties *)

(** The character [c] occurs in [s]. *)
Fixpoint has_char (c : ascii) (s : string) : bool :=
  match s with
  | EmptyString => false
  | String d s' => Ascii.eqb c d || has_char c s'
  end.

(** The texts the status line shows while a job is suspended. *)
Definition status_messages : list string :=
  "Uploading reference frame to Veo..." :: loadingMessages
  ++ ["Downloading final commercial asset..."].

(** The status line is a known status and no error is shown while a job
    runs; the status line is blank when none does. *)
Definition status_inv (g : Global) : Prop :=
  (isGenerating (g_session g) = true ->
     error (g_session g) = None /\ In (loadingStep (g_session g)) status_messages)
  /\ (isGenerating (g_session g) = false -> loadingStep (g_session g) = "").

(** The selected format is one of [ASPECT_RATIOS], and so is the format
    of every request sent. *)
Definition aspect_inv (g : Global) : Prop :=
  In (aspectRatio (g_session g)) (map snd ASPECT_RATIOS) /\
  (forall req, In (FxGenerateVideos req) (g_log g) ->
               In (req_aspectRatio req) (map snd ASPECT_RATIOS)).

(** More sample data for concrete runs. *)
Definition sample_global : Global := mkGlobal sample_session [] false [].

Definition expiring_global : Global :=
  mkGlobal (started sample_session) [AwGenerateVideos] false [].

(** A service that rejects the submission with an empty message. *)
Definition empty_message_world : World :=
  mkWorld (fun _ => Raise (mkError (Some ""))) (fun _ => Ok "response")
          (fun _ => Ok "video-bytes").

(** * Proofs *)

(** ** One resumption of a job *)

(** One resumption of a job either suspends again having changed nothing
    but the status line, or finishes: with the downloaded video, or
    through the [catch] handler. *)
Lemma job_step_shape env aw r m s :
  job_step env aw r = Some m ->
  let '(s1, _, x) := m s in
  (exists aw', x = Ok (Pending aw') /\ erase_loading s1 = erase_loading s)
  \/ (exists b, x = Ok Finished /\
        s1 = final ((setGeneratedVideoUrl (Some (createObjectURL env b)) ;;;
                     finally_block) s))
  \/ (exists e, x = Ok Finished /\
        s1 = final ((catch_block e ;;; finally_block) s)).
Proof.
  unfold job_step; intro H.
  destruct aw as [|op0 i|i|url|resp0];
    destruct r as [[op|e]| |[op|e]|[resp|e]|[blob|e]];
    simpl in H; try discriminate; injection H as <-.
  all: try (unfold loop_head, after_loop; destruct (negb (done op));
            [|destruct (download_link op)]).
  all: run_m.
  all: try (destruct (err_message e) as [msg|] eqn:Em;
            [destruct (includes msg not_found_signature) eqn:Ei|]); run_m.
  all: first
    [ left; eexists; split; reflexivity
    | right; left; eexists; split; reflexivity
    | right; right; first [exists e | exists (mkError (Some no_video_message))];
      split; [reflexivity|]; run_m;
      try rewrite Em; try rewrite Ei; reflexivity ].
Qed.

(** ** Unfolding a job run *)

Lemma continue_pending k s1 fx1 aw :
  continue_with k (s1, fx1, Ok (Pending aw)) = prepend fx1 (k aw s1).
Proof. reflexivity. Qed.

Lemma prepend_app fx1 fx2 o :
  prepend fx1 (prepend fx2 o) = prepend (fx1 ++ fx2) o.
Proof.
  destruct o as [[s fx]|]; simpl; [rewrite app_assoc|]; reflexivity.
Qed.

Lemma prepend_nil o : prepend [] o = o.
Proof. destruct o as [[s fx]|]; reflexivity. Qed.

Lemma run_job_S env w f aw s :
  run_job env w (S f) aw s =
  match job_step env aw (answer w aw) with
  | None => None
  | Some m => continue_with (run_job env w f) (m s)
  end.
Proof.
  simpl; destruct (job_step env aw (answer w aw)) as [m|]; [|reflexivity].
  destruct (m s) as [[s1 fx1] [[aw'|]|e]]; reflexivity.
Qed.

Lemma loop_head_not_done env op k s :
  done op = false ->
  try_catch_finally (loop_head env op k) s =
  (with_loading s (loading_message k),
   [FxSetLoadingStep (loading_message k); FxSetTimeout poll_delay_ms],
   Ok (Pending (AwTimeout op (S k)))).
Proof. intro H; unfold loop_head; rewrite H; reflexivity. Qed.

Lemma run_job_timeout env w f op i s :
  run_job env w (S f) (AwTimeout op i) s =
  prepend [FxGetVideosOperation op] (run_job env w f (AwGetVideosOperation i) s).
Proof. reflexivity. Qed.

Lemma run_job_poll env w f i op s :
  report w i = Ok op ->
  run_job env w (S f) (AwGetVideosOperation i) s =
  continue_with (run_job env w f) (try_catch_finally (loop_head env op i) s).
Proof. intro H; rewrite run_job_S; simpl; rewrite H; reflexivity. Qed.

Lemma run_job_submit env w f op s :
  report w 0 = Ok op ->
  run_job env w (S f) AwGenerateVideos s =
  continue_with (run_job env w f) (try_catch_finally (loop_head env op 0) s).
Proof. intro H; rewrite run_job_S; simpl; rewrite H; reflexivity. Qed.

Lemma with_loading_same s : with_loading s (loadingStep s) = s.
Proof. destruct s; reflexivity. Qed.

Lemma with_loading_twice s a b : with_loading (with_loading s a) b = with_loading s b.
Proof. reflexivity. Qed.

(** [n] iterations of the [while] loop, each on a not-done report. *)
Lemma poll_loop env w ops n : forall k s f,
  (forall j, k < j <= k + n -> report w j = Ok (ops j)) ->
  (forall j, k <= j < k + n -> done (ops j) = false) ->
  continue_with (run_job env w (2 * n + f))
    (try_catch_finally (loop_head env (ops k) k) s)
  = prepend (concat (map (poll_iteration_fx ops) (seq k n)))
      (continue_with (run_job env w f)
         (try_catch_finally (loop_head env (ops (k + n)) (k + n))
            (with_loading s (last_loading k n (loadingStep s))))).
Proof.
  induction n as [|n IH]; intros k s f Hrep Hdone.
  - simpl. rewrite Nat.add_0_r, with_loading_same, prepend_nil. reflexivity.
  - rewrite loop_head_not_done by (apply Hdone; lia).
    replace (2 * S n + f) with (S (S (2 * n + f))) by lia.
    rewrite continue_pending, run_job_timeout, prepend_app.
    rewrite (run_job_poll env w _ _ (ops (S k))) by (apply Hrep; lia).
    rewrite IH by (intros; first [apply Hrep | apply Hdone]; lia).
    rewrite prepend_app. simpl seq. simpl map. simpl concat.
    replace (S k + n) with (k + S n) by lia.
    rewrite with_loading_twice.
    f_equal.
    destruct n as [|n']; simpl last_loading; repeat f_equal; lia.
Qed.

Lemma loop_exit_download env w op k s link resp b f :
  done op = true ->
  download_link op = Some link ->
  w_fetch w (link ++ "&key=" ++ api_key env)%string = Ok resp ->
  w_blob w resp = Ok b ->
  continue_with (run_job env w (S (S f)))
    (try_catch_finally (loop_head env op k) s)
  = Some (mkSession (hasApiKey s) (selectedImage s) (prompt s) (aspectRatio s)
            false "" (Some (createObjectURL env b)) (error s),
          download_fx env (link ++ "&key=" ++ api_key env)%string resp b).
Proof.
  intros Hd Hl Hf Hb.
  unfold loop_head; rewrite Hd; simpl negb; unfold after_loop; rewrite Hl.
  cbn -[String.append]. rewrite Hf. cbn -[String.append]. rewrite Hb.
  reflexivity.
Qed.

Lemma generateAnimation_go s img :
  selectedImage s = Some img -> img <> "" ->
  generateAnimation s = (started s, submit_fx s img, Ok (Pending AwGenerateVideos)).
Proof.
  intros Hi Hne. apply String.eqb_neq in Hne.
  unfold generateAnimation, bind, get; simpl. rewrite Hi, Hne. reflexivity.
Qed.

Lemma generateAnimation_noop s :
  truthy (selectedImage s) = false -> generateAnimation s = (s, [], Ok Finished).
Proof.
  unfold truthy, generateAnimation, bind, get; simpl.
  destruct (selectedImage s) as [img|]; [|reflexivity].
  destruct (String.eqb img "") eqn:E; simpl; [reflexivity|discriminate].
Qed.

Lemma truthy_some o : truthy o = true -> exists img, o = Some img /\ img <> "".
Proof.
  destruct o as [img|]; simpl; [|discriminate].
  intro H; exists img; split; [reflexivity|].
  apply String.eqb_neq; destruct (String.eqb img ""); [discriminate|reflexivity].
Qed.

(** ** C1: the poll loop on n not-done reports, then the download *)

(** Claim C1.  If the operation is reported not done [n] times (the
    submission's answer and the polls before the last) and then done with
    a result URI, the run sets exactly [n] status phrases, the k-th being
    [loadingMessages[k mod 5]], each followed by the 10-second [setTimeout]
    and then a re-fetch of the operation; it then downloads from that URI
    (with the key appended) and the displayed video is the object URL of
    the fetched blob. *)
Theorem poll_loop_then_download (env : Env) (w : World) (s : Session)
    (img : string) (n : nat) (ops : nat -> Operation) (link : string)
    (resp : FetchResponse) (b : Blob) (fuel : nat) :
  selectedImage s = Some img -> img <> "" ->
  (forall j, j <= n -> report w j = Ok (ops j)) ->
  (forall j, j < n -> done (ops j) = false) ->
  done (ops n) = true ->
  download_link (ops n) = Some link ->
  w_fetch w (link ++ "&key=" ++ api_key env)%string = Ok resp ->
  w_blob w resp = Ok b ->
  2 * n + 3 <= fuel ->
  generate_run env w fuel s =
  Some (mkSession (hasApiKey s) (selectedImage s) (prompt s) (aspectRatio s)
          false "" (Some (createObjectURL env b)) None,
        submit_fx s img
        ++ concat (map (poll_iteration_fx ops) (seq 0 n))
        ++ download_fx env (link ++ "&key=" ++ api_key env)%string resp b).
Proof.
  intros Hi Hne Hrep Hdone Hn Hl Hf Hb Hfuel.
  unfold generate_run; rewrite (generateAnimation_go s img Hi Hne).
  replace fuel with (S (2 * n + S (S (fuel - 2 * n - 3)))) by lia.
  rewrite (run_job_submit env w _ (ops 0)) by (apply Hrep; lia).
  rewrite poll_loop by (intros; first [apply Hrep | apply Hdone]; lia).
  simpl (0 + n).
  rewrite (loop_exit_download env w (ops n) n _ link resp b) by assumption.
  reflexivity.
Qed.

(** ** C2: the poll loop is unbounded *)

Lemma loop_exit_finishes env w op k s :
  done op = true ->
  exists r, continue_with (run_job env w 2)
              (try_catch_finally (loop_head env op k) s) = Some r.
Proof.
  intro Hd; unfold loop_head; rewrite Hd; simpl negb; unfold after_loop.
  destruct (download_link op) as [link|]; [|eexists; reflexivity].
  cbn -[String.append].
  destruct (w_fetch w (link ++ "&key=" ++ api_key env)%string) as [resp|e];
    simpl; [destruct (w_blob w resp) as [b|e]; simpl|]; run_m;
    try (destruct (err_message e) as [msg|];
         [destruct (includes msg not_found_signature)|]);
    run_m; eexists; reflexivity.
Qed.

Lemma finishes_from env w m : forall k op s,
  report w k = Ok op -> stops (report w (k + m)) = true ->
  exists fuel r, continue_with (run_job env w fuel)
                   (try_catch_finally (loop_head env op k) s) = Some r.
Proof.
  induction m as [|m IH]; intros k op s Hk Hstop.
  - rewrite Nat.add_0_r, Hk in Hstop; simpl in Hstop.
    destruct (loop_exit_finishes env w op k s Hstop) as [r Hr]; eauto.
  - destruct (done op) eqn:Hd.
    + destruct (loop_exit_finishes env w op k s Hd) as [r Hr]; eauto.
    + rewrite loop_head_not_done by exact Hd.
      destruct (report w (S k)) as [op'|e] eqn:Hk'.
      * rewrite Nat.add_succ_r, <- Nat.add_succ_l in Hstop.
        destruct (IH (S k) op' (with_loading s (loading_message k)) Hk' Hstop)
          as [fuel [r Hr]].
        exists (S (S fuel)).
        rewrite continue_pending, run_job_timeout, prepend_app.
        rewrite (run_job_poll env w _ _ op') by exact Hk'.
        rewrite Hr; destruct r; eexists; reflexivity.
      * exists 2.
        rewrite continue_pending, run_job_timeout, prepend_app, run_job_S.
        simpl answer; rewrite Hk'; settle_catch e; eexists; reflexivity.
Qed.

Lemma finished_run_stops env w bound : forall fuel k op s r,
  fuel <= bound -> report w k = Ok op ->
  continue_with (run_job env w fuel)
    (try_catch_finally (loop_head env op k) s) = Some r ->
  exists j, stops (report w j) = true.
Proof.
  induction bound as [|bound IH]; intros fuel k op s r Hle Hk Hrun.
  all: destruct (done op) eqn:Hd;
       [exists k; rewrite Hk; exact Hd | rewrite loop_head_not_done in Hrun by exact Hd].
  - replace fuel with 0 in Hrun by lia; discriminate.
  - destruct fuel as [|[|fuel]]; [discriminate|discriminate|].
    rewrite continue_pending, run_job_timeout, prepend_app in Hrun.
    destruct (report w (S k)) as [op'|e] eqn:Hk';
      [|exists (S k); rewrite Hk'; reflexivity].
    rewrite (run_job_poll env w _ _ op') in Hrun by exact Hk'.
    destruct (continue_with (run_job env w fuel)
                (try_catch_finally (loop_head env op' (S k))
                   (with_loading s (loading_message k)))) as [r'|] eqn:Hr';
      [|discriminate].
    exact (IH fuel (S k) op' _ r' ltac:(lia) Hk' Hr').
Qed.


Lemma generate_run_started env w fuel s img :
  selectedImage s = Some img -> img <> "" ->
  generate_run env w fuel s =
  prepend (submit_fx s img) (run_job env w fuel AwGenerateVideos (started s)).
Proof.
  intros Hi Hne; unfold generate_run; rewrite (generateAnimation_go s img Hi Hne).
  reflexivity.
Qed.

(** Claim C2.  The poll loop has no attempt cap and no timeout: a run of
    [generateAnimation] (with an image set, so that the loop is reached)
    finishes for some amount of fuel exactly when some report of the
    operation is a rejection or is [done]; if every report is a successful
    not-done answer, no amount of fuel makes the run finish. *)
Theorem poll_loop_unbounded (env : Env) (w : World) (s : Session) (img : string) :
  selectedImage s = Some img -> img <> "" ->
  (terminates env w s <-> exists k, stops (report w k) = true)
  /\ ((forall k, exists op, report w k = Ok op /\ done op = false) ->
      forall fuel, generate_run env w fuel s = None).
Proof.
  intros Hi Hne.
  assert (Hiff : terminates env w s <-> exists k, stops (report w k) = true).
  { unfold terminates; split.
    - intros [fuel [r Hrun]].
      rewrite (generate_run_started env w fuel s img Hi Hne) in Hrun.
      destruct (run_job env w fuel AwGenerateVideos (started s)) as [r'|] eqn:Hr;
        [|discriminate].
      destruct fuel as [|f]; [discriminate|].
      destruct (report w 0) as [op0|e] eqn:H0;
        [|exists 0; rewrite H0; reflexivity].
      rewrite (run_job_submit env w f op0) in Hr by exact H0.
      exact (finished_run_stops env w f f 0 op0 _ r' (le_n f) H0 Hr).
    - intros [k Hk].
      destruct (report w 0) as [op0|e] eqn:H0.
      + destruct (finishes_from env w k 0 op0 (started s) H0 Hk) as [fuel [r Hr]].
        exists (S fuel).
        rewrite (generate_run_started env w (S fuel) s img Hi Hne).
        rewrite (run_job_submit env w fuel op0) by exact H0.
        rewrite Hr; destruct r; eexists; reflexivity.
      + exists 1.
        rewrite (generate_run_started env w 1 s img Hi Hne), run_job_S.
        simpl answer; rewrite H0. settle_catch e; eexists; reflexivity. }
  split; [exact Hiff|].
  intros Hall fuel.
  destruct (generate_run env w fuel s) as [r|] eqn:Hrun; [|reflexivity].
  exfalso.
  destruct (proj1 Hiff (ex_intro _ fuel (ex_intro _ r Hrun))) as [k Hk].
  destruct (Hall k) as [op [Hop Hd]].
  rewrite Hop in Hk; simpl in Hk; congruence.
Qed.

(** ** C3: failures of submission, polling and download *)

(** Claim C3 (as amended).  Whichever await is rejected (the submission,
    a poll, the fetch or the blob read), the job finishes: if the error's
    message contains "Requested entity was not found" the key flag is
    reset and the re-selection message is shown; otherwise the key flag is
    unchanged and the message is shown when it is a non-empty string, the
    generic text when it is missing or empty.  The result is untouched. *)
Theorem failure_handling (env : Env) (aw : Await) (r : Reply) (e : Error)
    (m : M Next) (s : Session) :
  rejection r = Some e -> job_step env aw r = Some m ->
  let '(s1, _, x) := m s in
  x = Ok Finished /\ isGenerating s1 = false /\
  generatedVideoUrl s1 = generatedVideoUrl s /\
  (if is_not_found e
   then hasApiKey s1 = false /\ error s1 = Some key_expired_message
   else hasApiKey s1 = hasApiKey s /\
        error s1 = Some (match err_message e with
                         | Some msg => if String.eqb msg "" then generic_error_message
                                       else msg
                         | None => generic_error_message
                         end)).
Proof.
  intros Hrej Hstep; unfold job_step in Hstep.
  destruct aw as [|op0 i|i|url|resp0];
    destruct r as [[op|e']| |[op|e']|[resp|e']|[blob|e']];
    simpl in Hrej; try discriminate; injection Hrej as ->;
    simpl in Hstep; try discriminate; injection Hstep as <-.
  all: unfold is_not_found; run_m.
  all: destruct (err_message e) as [msg|]; [destruct (includes msg not_found_signature)|];
       run_m; repeat split.
  all: unfold or_else, truthy; destruct (String.eqb msg ""); reflexivity.
Qed.

(** The claim as first stated: the raw message is shown unless it is
    absent.  An [Error("")] shows the generic text instead. *)
Lemma failure_handling_empty_message :
  ~ (forall env aw r e m s,
       rejection r = Some e -> job_step env aw r = Some m ->
       is_not_found e = false ->
       error (final (m s)) =
       Some (match err_message e with
             | Some msg => msg
             | None => generic_error_message
             end)).
Proof.
  intro H.
  specialize (H sample_env AwGenerateVideos (RGenerateVideos (Raise (mkError (Some ""))))
                (mkError (Some "")) _ initial_session eq_refl eq_refl eq_refl).
  vm_compute in H. discriminate.
Qed.

(** ** C4: a finished operation without a video *)

(** Claim C4.  When the submission or a poll delivers an operation that is
    [done] but has no truthy [response.generatedVideos[0].video.uri], the
    job finishes with the "No video was generated in the response." error,
    the key flag unchanged. *)
Theorem no_video_fails (env : Env) (aw : Await) (r : Reply) (op : Operation)
    (m : M Next) (s : Session) :
  delivered r = Some op -> done op = true -> download_link op = None ->
  job_step env aw r = Some m ->
  let '(s1, _, x) := m s in
  x = Ok Finished /\ isGenerating s1 = false /\
  error s1 = Some no_video_message /\ hasApiKey s1 = hasApiKey s /\
  generatedVideoUrl s1 = generatedVideoUrl s.
Proof.
  intros Hdel Hd Hl Hstep; unfold job_step in Hstep.
  destruct aw as [|op0 i|i|url|resp0];
    destruct r as [[op'|e']| |[op'|e']|[resp|e']|[blob|e']];
    simpl in Hdel; try discriminate; injection Hdel as <-;
    simpl in Hstep; try discriminate; injection Hstep as <-.
  all: unfold loop_head; rewrite Hd; simpl negb; unfold after_loop; rewrite Hl.
  all: run_m; repeat split.
Qed.

(** ** Whole runs: result or error *)

Lemma catch_final e s :
  let s1 := final ((catch_block e ;;; finally_block) s) in
  isGenerating s1 = false /\ error s1 <> None /\
  generatedVideoUrl s1 = generatedVideoUrl s.
Proof.
  run_m; destruct (err_message e) as [msg|];
    [destruct (includes msg not_found_signature)|]; run_m;
    repeat split; discriminate.
Qed.

Lemma erase_loading_fields s1 s :
  erase_loading s1 = erase_loading s ->
  hasApiKey s1 = hasApiKey s /\ isGenerating s1 = isGenerating s /\
  generatedVideoUrl s1 = generatedVideoUrl s /\ error s1 = error s.
Proof. destruct s1, s; run_m; intro H; injection H; intros; subst; auto. Qed.

(** A suspended job, once run to its end, either stored the video and
    left the error as it was, or set the error and left the result. *)
Lemma run_job_outcome env w fuel : forall aw s s' fx,
  run_job env w fuel aw s = Some (s', fx) ->
  isGenerating s' = false /\
  ((error s' = error s /\
    exists b, generatedVideoUrl s' = Some (createObjectURL env b))
   \/ (error s' <> None /\ generatedVideoUrl s' = generatedVideoUrl s)).
Proof.
  induction fuel as [|f IH]; intros aw s s' fx Hrun; [discriminate|].
  rewrite run_job_S in Hrun.
  destruct (job_step env aw (answer w aw)) as [m|] eqn:Hstep; [|discriminate].
  pose proof (job_step_shape env aw _ m s Hstep) as Hshape.
  destruct (m s) as [[s1 fx1] x].
  destruct Hshape as [[aw' [-> He]] | [[b [-> ->]] | [e [-> ->]]]].
  - rewrite continue_pending in Hrun.
    destruct (run_job env w f aw' s1) as [[s2 fx2]|] eqn:Hr; [|discriminate].
    injection Hrun as <- _.
    destruct (erase_loading_fields s1 s He) as [_ [_ [Hu Herr]]].
    destruct (IH aw' s1 s2 fx2 Hr) as [Hg [[E [b' U]] | [E U]]];
      split; auto; [left | right]; split; try congruence.
    exists b'; exact U.
  - injection Hrun as <- _. run_m. split; [reflexivity|].
    left; split; [reflexivity|]; eexists; reflexivity.
  - injection Hrun as <- _.
    destruct (catch_final e s) as [Hg [He Hu]].
    split; [exact Hg|right; split; assumption].
Qed.

Lemma gsteps_reachable env evs : forall g g',
  reachable env g -> gsteps env g evs = Some g' -> reachable env g'.
Proof.
  induction evs as [|ev evs IH]; intros g g' Hg H; simpl in H.
  - injection H as <-; exact Hg.
  - destruct (gstep env g ev) as [g1|] eqn:E; [|discriminate].
    exact (IH g1 g' (reachable_step env g ev g1 Hg E) H).
Qed.

Lemma gsteps_one env g ev : gsteps env g [ev] = gstep env g ev.
Proof. simpl; destruct (gstep env g ev); reflexivity. Qed.

(** ** C5: result and error *)

Lemma generate_run_outcome env w fuel s s' fx :
  truthy (selectedImage s) = true ->
  generate_run env w fuel s = Some (s', fx) ->
  (error s' = None /\ exists b, generatedVideoUrl s' = Some (createObjectURL env b))
  \/ (error s' <> None /\ generatedVideoUrl s' = generatedVideoUrl s).
Proof.
  intros Ht Hrun.
  destruct (truthy_some _ Ht) as [img [Hi Hne]].
  rewrite (generate_run_started env w fuel s img Hi Hne) in Hrun.
  destruct (run_job env w fuel AwGenerateVideos (started s)) as [[s2 fx2]|] eqn:Hr;
    [|discriminate].
  injection Hrun as <- _.
  destruct (run_job_outcome env w fuel _ _ _ _ Hr) as [_ [[E U] | [E U]]];
    [left | right]; exact (conj E U).
Qed.

(** Claim C5 (as amended).  A run of [generateAnimation] either succeeds,
    leaving the error absent and the result set to the downloaded video,
    or fails, setting the error and leaving the result as it was before
    the run.  So a run never leaves both set when it starts without a
    result; both are set only when an earlier result survives a later
    failing run. *)
Theorem run_sets_result_or_error (env : Env) (w : World) (fuel : nat)
    (s s' : Session) (fx : list Effect) :
  truthy (selectedImage s) = true ->
  generate_run env w fuel s = Some (s', fx) ->
  ((error s' = None /\ exists b, generatedVideoUrl s' = Some (createObjectURL env b))
   \/ (error s' <> None /\ generatedVideoUrl s' = generatedVideoUrl s))
  /\ (generatedVideoUrl s = None -> error s' = None \/ generatedVideoUrl s' = None).
Proof.
  intros Ht Hrun.
  pose proof (generate_run_outcome env w fuel s s' fx Ht Hrun) as Hout.
  split; [exact Hout|].
  intro Hnone; destruct Hout as [[E _] | [_ U]]; [left | right]; congruence.
Qed.

(** The claim as first stated fails: after a successful run and a later
    failing one, the page shows both the old video and the new error. *)
Lemma result_and_error_both_set :
  ~ (forall env g, reachable env g ->
       error (g_session g) = None \/ generatedVideoUrl (g_session g) = None).
Proof.
  intro H.
  destruct (gsteps sample_env initial_global success_then_failure) as [g|] eqn:E.
  - pose proof (gsteps_reachable sample_env _ _ _ (reachable_init _) E) as Hr.
    vm_compute in E; injection E as <-.
    destruct (H _ _ Hr) as [E | E]; vm_compute in E; discriminate.
  - vm_compute in E; discriminate.
Qed.

(** ** C6: at most one job in flight *)

Lemma single_job_idle g :
  single_job g -> isGenerating (g_session g) = false -> g_jobs g = [].
Proof.
  intros [_ Hiff] Hg; destruct (g_jobs g) as [|a l]; [reflexivity|].
  exfalso; assert (H : a :: l <> []) by discriminate.
  apply Hiff in H; congruence.
Qed.

Lemma enabled_generate g :
  generate_disabled (g_session g) = false ->
  truthy (selectedImage (g_session g)) = true /\ isGenerating (g_session g) = false.
Proof.
  unfold generate_disabled; intro H; apply orb_false_iff in H.
  destruct H as [H1 H2]; split; [apply negb_false_iff|]; assumption.
Qed.

Lemma gstep_generate env g img :
  on_main g = true -> selectedImage (g_session g) = Some img -> img <> "" ->
  isGenerating (g_session g) = false ->
  gstep env g EvGenerate =
  Some (mkGlobal (started (g_session g)) (g_jobs g ++ [AwGenerateVideos])
          (g_check_pending g) (g_log g ++ submit_fx (g_session g) img)).
Proof.
  intros Hm Hi Hne Hg; simpl; unfold generate_disabled.
  rewrite Hm, Hi, Hg; simpl truthy.
  apply String.eqb_neq in Hne as Hne'; rewrite Hne'; simpl.
  unfold apply_m; rewrite (generateAnimation_go _ img Hi Hne); reflexivity.
Qed.

Lemma gstep_single_job env g ev g' :
  single_job g -> gstep env g ev = Some g' -> single_job g'.
Proof.
  intros Hinv H; destruct ev as [r| |d|p|i|i| |j r|]; simpl in H.
  - destruct (g_check_pending g); [|discriminate]; injection H as <-.
    destruct r; exact Hinv.
  - destruct (on_main g); [discriminate|]; injection H as <-; exact Hinv.
  - destruct (on_main g); [|discriminate]; injection H as <-; exact Hinv.
  - destruct (on_main g); [|discriminate]; injection H as <-; exact Hinv.
  - destruct (on_main g), (nth_error PRESET_POSITIONS i); try discriminate.
    injection H as <-; exact Hinv.
  - destruct (on_main g), (nth_error ASPECT_RATIOS i) as [[? ?]|]; try discriminate.
    injection H as <-; exact Hinv.
  - change (gstep env g EvGenerate = Some g') in H.
    destruct (on_main g && negb (generate_disabled (g_session g))) eqn:En;
      [|simpl in H; rewrite En in H; discriminate].
    apply andb_true_iff in En; destruct En as [Hm Hd]; apply negb_true_iff in Hd.
    destruct (enabled_generate g Hd) as [Ht Hg].
    destruct (truthy_some _ Ht) as [img [Hi Hne]].
    rewrite (gstep_generate env g img Hm Hi Hne Hg) in H.
    simpl in H; injection H as <-.
    rewrite (single_job_idle g Hinv Hg).
    unfold single_job; simpl; split; [lia|]; split; [discriminate|reflexivity].
  - destruct Hinv as [Hlen Hiff].
    destruct (nth_error (g_jobs g) j) as [aw|] eqn:Hj; [|discriminate].
    destruct (job_step env aw r) as [m|] eqn:Hstep; [|discriminate].
    assert (Hjobs : g_jobs g = [aw] /\ j = 0).
    { destruct (g_jobs g) as [|a [|b l]].
      - destruct j; discriminate.
      - destruct j as [|j]; [injection Hj as ->; split; reflexivity|].
        destruct j; discriminate.
      - simpl in Hlen; lia. }
    destruct Hjobs as [Hjobs ->].
    assert (Hgen : isGenerating (g_session g) = true)
      by (apply Hiff; rewrite Hjobs; discriminate).
    pose proof (job_step_shape env aw r m (g_session g) Hstep) as Hshape.
    unfold apply_m in H.
    destruct (m (g_session g)) as [[s1 fx1] x].
    simpl in H; injection H as <-; simpl; rewrite Hjobs.
    destruct Hshape as [[aw' [-> He]] | [[b [-> ->]] | [e [-> ->]]]];
      unfold single_job; simpl.
    + destruct (erase_loading_fields s1 _ He) as [_ [Hg1 _]].
      split; [lia|]; split; [discriminate|]; rewrite Hg1, Hgen; reflexivity.
    + run_m; split; [lia|]; split; [discriminate|congruence].
    + destruct (catch_final e (g_session g)) as [Hg1 _].
      split; [lia|]; split; [congruence|]; intro Hc; congruence.
  - injection H as <-; unfold single_job; simpl; split; [lia|].
    split; [discriminate|congruence].
Qed.

Lemma reachable_single_job env g : reachable env g -> single_job g.
Proof.
  induction 1 as [|g ev g' _ IH Hstep].
  - unfold single_job; simpl; split; [lia|]; split; [discriminate|congruence].
  - exact (gstep_single_job env g ev g' IH Hstep).
Qed.

(** Claim C6.  In every reachable page state at most one job is in
    flight and [isGenerating] is set exactly while one is; the Generate
    button is disabled exactly when no image is set or a job is in flight,
    and a click on it then does nothing; an enabled click starts exactly
    one job; and [generateAnimation] without an image is a no-op. *)
Theorem one_generation_job_at_a_time (env : Env) (g : Global) :
  reachable env g ->
  length (g_jobs g) <= 1
  /\ (isGenerating (g_session g) = true <-> g_jobs g <> [])
  /\ (generate_disabled (g_session g) = true <->
      truthy (selectedImage (g_session g)) = false \/ g_jobs g <> [])
  /\ (generate_disabled (g_session g) = true -> gstep env g EvGenerate = None)
  /\ (on_main g = true -> generate_disabled (g_session g) = false ->
      exists g', gstep env g EvGenerate = Some g' /\
                 g_jobs g = [] /\ g_jobs g' = [AwGenerateVideos])
  /\ (forall s, truthy (selectedImage s) = false ->
       generateAnimation s = (s, [], Ok Finished)).
Proof.
  intro Hr; pose proof (reachable_single_job env g Hr) as Hinv.
  destruct Hinv as [Hlen Hiff].
  split; [exact Hlen|]; split; [exact Hiff|]; split; [|split; [|split]].
  - unfold generate_disabled; rewrite orb_true_iff, negb_true_iff, Hiff.
    reflexivity.
  - intro Hd; simpl; rewrite Hd, andb_false_r; reflexivity.
  - intros Hm Hd.
    destruct (enabled_generate g Hd) as [Ht Hg].
    destruct (truthy_some _ Ht) as [img [Hi Hne]].
    eexists; split; [exact (gstep_generate env g img Hm Hi Hne Hg)|].
    pose proof (single_job_idle g (conj Hlen Hiff) Hg) as Hnil.
    split; [exact Hnil|]; simpl; rewrite Hnil; reflexivity.
  - exact generateAnimation_noop.
Qed.

(** ** C7: the request for a blank prompt *)

(** Claim C7.  Select a key, upload an image, leave the prompt blank and
    press Generate: the last effect is the [generateVideos] call, whose
    prompt is the template followed by the default phrase and whose
    aspect ratio is the default "9:16". *)
Theorem blank_prompt_request (env : Env) (img : string) :
  img <> "" ->
  exists g req,
    gsteps env initial_global [EvSelectKey; EvUpload img; EvGenerate] = Some g /\
    last (g_log g) FxHasSelectedApiKey = FxGenerateVideos req /\
    req_prompt req =
      "Animate this character: Natural movement in high quality commercial lighting" /\
    req_aspectRatio req = "9:16".
Proof.
  intro Hne.
  set (g2 := apply_unit (setSelectedImage (Some img))
               (apply_unit handleSelectKey initial_global)).
  assert (Hg2 : gsteps env initial_global [EvSelectKey; EvUpload img] = Some g2)
    by reflexivity.
  assert (Hgen := gstep_generate env g2 img eq_refl eq_refl Hne eq_refl).
  assert (E : gsteps env initial_global [EvSelectKey; EvUpload img; EvGenerate]
              = gsteps env g2 [EvGenerate]) by reflexivity.
  rewrite E, gsteps_one, Hgen.
  eexists; eexists; split; [reflexivity|].
  split; [reflexivity|]; split; reflexivity.
Qed.

(** ** C8: a failing mount-time key check *)

(** Claim C8.  When [hasSelectedApiKey()] rejects, the failure is logged
    and nothing else changes: from the freshly mounted page the key flag
    stays false and the gate screen is rendered; from any page the
    handler completes normally and leaves the session as it was. *)
Theorem key_check_failure (env : Env) (e : Error) :
  gstep env initial_global (EvCheckKeySettled (Raise e)) =
    Some (mkGlobal initial_session [] false
            [FxHasSelectedApiKey; FxConsoleError (Some "API key check failed") e])
  /\ hasApiKey initial_session = false
  /\ render initial_session = GateScreen
  /\ (forall g, gstep env g (EvCheckKeySettled (Raise e)) =
        if g_check_pending g
        then Some (mkGlobal (g_session g) (g_jobs g) false
                     (g_log g ++ [FxConsoleError (Some "API key check failed") e]))
        else None).
Proof.
  split; [reflexivity|]; split; [reflexivity|]; split; [reflexivity|].
  intro g; simpl; destruct (g_check_pending g); reflexivity.
Qed.

(** ** C9: what a new run clears *)

(** Claim C9.  A click on Generate (the only caller of
    [generateAnimation], enabled only with an image) clears the error
    before the first outside call, the [generateVideos] request, and
    leaves the previous result in place; the run then either fails,
    keeping that previous result, or succeeds, replacing it with the new
    video and leaving the error absent. *)
Theorem generate_clears_error_keeps_result (env : Env) (g g' : Global) :
  gstep env g EvGenerate = Some g' ->
  (exists img,
     g_log g' = g_log g ++
       [FxSetIsGenerating true; FxSetError None;
        FxSetLoadingStep "Initializing AI engine...";
        FxSetLoadingStep "Uploading reference frame to Veo...";
        FxGenerateVideos (build_request (prompt (g_session g))
                            (aspectRatio (g_session g)) img)])
  /\ error (g_session g') = None
  /\ generatedVideoUrl (g_session g') = generatedVideoUrl (g_session g)
  /\ (forall w fuel s' fx, generate_run env w fuel (g_session g) = Some (s', fx) ->
        (error s' <> None /\ generatedVideoUrl s' = generatedVideoUrl (g_session g))
        \/ (error s' = None /\
            exists b, generatedVideoUrl s' = Some (createObjectURL env b))).
Proof.
  intro H.
  destruct (on_main g && negb (generate_disabled (g_session g))) eqn:En;
    [|simpl in H; rewrite En in H; discriminate].
  apply andb_true_iff in En; destruct En as [Hm Hd]; apply negb_true_iff in Hd.
  destruct (enabled_generate g Hd) as [Ht Hg].
  destruct (truthy_some _ Ht) as [img [Hi Hne]].
  rewrite (gstep_generate env g img Hm Hi Hne Hg) in H; injection H as <-.
  split; [exists img; reflexivity|]; split; [reflexivity|]; split; [reflexivity|].
  intros w fuel s' fx Hrun.
  destruct (generate_run_outcome env w fuel _ s' fx Ht Hrun) as [[E U] | [E U]];
    [right | left]; split; assumption.
Qed.

(** ** C10: the prompt fallback *)

(** Claim C10.  The prompt sent is the template followed by the default
    phrase when the prompt is exactly "", and by the prompt verbatim
    otherwise (whitespace included). *)
Theorem request_prompt_text (s : Session) (img : string) :
  selectedImage s = Some img -> img <> "" ->
  exists req,
    In (FxGenerateVideos req) (snd (fst (generateAnimation s))) /\
    req_prompt req =
      (prompt_template ++
       (if String.eqb (prompt s) "" then default_prompt else prompt s))%string.
Proof.
  intros Hi Hne; rewrite (generateAnimation_go s img Hi Hne).
  eexists; split; [simpl; right; right; right; right; left; reflexivity|].
  simpl; unfold or_else, truthy; destruct (String.eqb (prompt s) ""); reflexivity.
Qed.

(** * Further properties of App.tsx *)

(** ** JavaScript strings *)

Lemma prefixb_spec p s : prefixb p s = true <-> exists b, s = (p ++ b)%string.
Proof.
  revert s; induction p as [|c p IH]; intros s; simpl.
  - split; [intros _; exists s; reflexivity | reflexivity].
  - destruct s as [|d s].
    + split; [discriminate|intros [b Hb]; discriminate].
    + rewrite andb_true_iff, Ascii.eqb_eq, IH. split.
      * intros [-> [b ->]]; exists b; reflexivity.
      * intros [b Hb]; injection Hb as -> ->; split; [reflexivity|exists b; reflexivity].
Qed.

Lemma includes_spec s p :
  includes s p = true <-> exists a b, s = (a ++ p ++ b)%string.
Proof.
  induction s as [|c s IH]; simpl.
  - rewrite orb_false_r, prefixb_spec. split.
    + intros [b Hb]; exists "", b; exact Hb.
    + intros [a [b Hab]]; destruct a as [|? a]; [exists b; exact Hab|discriminate].
  - rewrite orb_true_iff, prefixb_spec, IH. split.
    + intros [[b Hb] | [a [b Hab]]].
      * exists "", b; exact Hb.
      * exists (String c a), b; rewrite Hab; reflexivity.
    + intros [a [b Hab]]; destruct a as [|d a].
      * left; exists b; exact Hab.
      * right; injection Hab as -> ->; exists a, b; reflexivity.
Qed.

Lemma split_no_char c s : has_char c s = false -> split c s = [s].
Proof.
  induction s as [|d s IH]; simpl; [reflexivity|].
  intro H; apply orb_false_iff in H; destruct H as [Hc Hs].
  rewrite (IH Hs); rewrite Ascii.eqb_sym in Hc; rewrite Hc; reflexivity.
Qed.

Lemma split_at_char c a b :
  has_char c a = false -> split c (a ++ String c b) = a :: split c b.
Proof.
  induction a as [|d a IH]; simpl; intro H.
  - rewrite Ascii.eqb_refl; reflexivity.
  - apply orb_false_iff in H; destruct H as [Hc Ha].
    rewrite (IH Ha); rewrite Ascii.eqb_sym in Hc; rewrite Hc; reflexivity.
Qed.

(** The first piece of [split c s]: the longest prefix without [c]. *)
Lemma split_first c s :
  exists rest, s = (hd "" (split c s) ++ rest)%string /\
               has_char c (hd "" (split c s)) = false /\
               (rest = "" \/ exists r, rest = String c r).
Proof.
  induction s as [|d s [rest [Hs [Hno Hr]]]]; simpl.
  - exists ""; split; [reflexivity|split; [reflexivity|left; reflexivity]].
  - destruct (Ascii.eqb d c) eqn:Hd.
    + apply Ascii.eqb_eq in Hd; subst d.
      exists (String c s); split; [reflexivity|split; [reflexivity|right; exists s; reflexivity]].
    + destruct (split c s) as [|r rs] eqn:E.
      * exfalso; destruct s; simpl in E; [discriminate|].
        destruct (Ascii.eqb a c); [discriminate|destruct (split c s); discriminate].
      * exists rest; simpl in *; split; [rewrite Hs at 1; reflexivity|].
        split; [rewrite Ascii.eqb_sym, Hd; exact Hno|exact Hr].
Qed.

Lemma append_assoc (a b c : string) : (a ++ b ++ c)%string = ((a ++ b) ++ c)%string.
Proof. induction a as [|x a IH]; simpl; [reflexivity|rewrite IH; reflexivity]. Qed.

Lemma has_char_app c a b : has_char c (a ++ b) = has_char c a || has_char c b.
Proof. induction a as [|x a IH]; simpl; [reflexivity|rewrite IH, orb_assoc; reflexivity]. Qed.

Lemma last_submit l d s img :
  last (l ++ submit_fx s img) d =
  FxGenerateVideos (build_request (prompt s) (aspectRatio s) img).
Proof.
  unfold submit_fx.
  change (l ++ [FxSetIsGenerating true; FxSetError None;
                FxSetLoadingStep "Initializing AI engine...";
                FxSetLoadingStep "Uploading reference frame to Veo...";
                FxGenerateVideos (build_request (prompt s) (aspectRatio s) img)])
    with (l ++ [FxSetIsGenerating true; FxSetError None;
                FxSetLoadingStep "Initializing AI engine...";
                FxSetLoadingStep "Uploading reference frame to Veo..."]
            ++ [FxGenerateVideos (build_request (prompt s) (aspectRatio s) img)]).
  rewrite app_assoc; apply last_last.
Qed.

Lemma preset_nonempty i p : nth_error PRESET_POSITIONS i = Some p -> String.eqb p "" = false.
Proof.
  destruct i as [|[|[|[|[|i]]]]]; simpl; intro H;
    try (injection H as <-; reflexivity).
  destruct i; discriminate.
Qed.

(** ** Not-found detection *)

(** The [catch] block resets the credential flag exactly when the error
    message contains ["Requested entity was not found"] anywhere in it. *)
Theorem catch_resets_key_iff_contains (e : Error) (s : Session) :
  In (FxSetHasApiKey false) (snd (fst (catch_block e s))) <->
  exists m a b, err_message e = Some m /\ m = (a ++ not_found_signature ++ b)%string.
Proof.
  run_m.
  destruct (err_message e) as [m|] eqn:Em.
  - destruct (includes m not_found_signature) eqn:Ei; run_m; simpl.
    + split; [intros _|intros _; right; left; reflexivity].
      apply includes_spec in Ei; destruct Ei as [a [b Hab]].
      exists m, a, b; split; [reflexivity|exact Hab].
    + split.
      * intros [H|[H|[]]]; discriminate.
      * intros [m' [a [b [Hm Hab]]]]; injection Hm as <-.
        assert (Hc : includes m not_found_signature = true)
          by (apply includes_spec; exists a, b; exact Hab).
        congruence.
  - run_m; simpl; split.
    + intros [H|[H|[]]]; discriminate.
    + intros [m' [a [b [Hm _]]]]; discriminate.
Qed.

(** ** The request built from the data URL *)

(** For a data URL [data:<mime>;base64,<data>] as [FileReader] produces
    it, the request carries [<data>] as the image bytes and [<mime>] as
    the MIME type. *)
Theorem build_request_data_url (prompt aspectRatio mime data : string) :
  has_char ":"%char mime = false -> has_char ";"%char mime = false ->
  has_char ","%char mime = false -> has_char ","%char data = false ->
  req_imageBytes (build_request prompt aspectRatio ("data:" ++ mime ++ ";base64," ++ data))
    = Some data /\
  req_mimeType (build_request prompt aspectRatio ("data:" ++ mime ++ ";base64," ++ data))
    = Some mime.
Proof.
  intros Hcolon Hsemi Hcomma Hdata; unfold build_request.
  cbn [req_imageBytes req_mimeType]; split.
  - assert (E : ("data:" ++ mime ++ ";base64," ++ data)%string =
                (("data:" ++ mime ++ ";base64") ++ String ","%char data)%string).
    { rewrite <- !append_assoc; reflexivity. }
    rewrite E, split_at_char, split_no_char by
      (try exact Hdata; rewrite !has_char_app; simpl; rewrite Hcomma; reflexivity).
    reflexivity.
  - assert (E : ("data:" ++ mime ++ ";base64," ++ data)%string =
                (("data:" ++ mime) ++ String ";"%char ("base64," ++ data))%string).
    { rewrite <- !append_assoc; reflexivity. }
    rewrite E, split_at_char by (rewrite !has_char_app; simpl; rewrite Hsemi; reflexivity).
    cbn [hd].
    rewrite (split_at_char ":"%char "data" mime eq_refl
             : split ":"%char ("data:" ++ mime) = "data" :: split ":"%char mime).
    rewrite split_no_char by exact Hcolon.
    reflexivity.
Qed.

(** An image string without a comma is still submitted: the request goes
    out, with the image bytes [undefined]. *)
Theorem request_without_comma (s : Session) (img : string) :
  selectedImage s = Some img -> img <> "" -> has_char ","%char img = false ->
  exists req, In (FxGenerateVideos req) (snd (fst (generateAnimation s))) /\
              req_imageBytes req = None.
Proof.
  intros Hi Hne Hc; rewrite (generateAnimation_go s img Hi Hne).
  eexists; split; [simpl; right; right; right; right; left; reflexivity|].
  unfold build_request; simpl; rewrite (split_no_char _ _ Hc); reflexivity.
Qed.

(** ** Presets *)

(** A preset button is labelled with the part of its preset before the
    first comma (the whole preset when it has none), followed by "...". *)
Theorem preset_label_prefix (preset : string) :
  exists first rest,
    preset_label preset = (first ++ "...")%string /\
    preset = (first ++ rest)%string /\ has_char ","%char first = false /\
    (rest = "" \/ exists r, rest = String ","%char r).
Proof.
  destruct (split_first ","%char preset) as [rest [Hs [Hno Hr]]].
  exists (hd "" (split ","%char preset)), rest.
  split; [reflexivity|split; [exact Hs|split; [exact Hno|exact Hr]]].
Qed.

(** Choosing a preset and then clicking Generate sends the whole preset
    text (not its shortened label) after the fixed template. *)
Theorem preset_then_generate (env : Env) (g : Global) (i : nat) (p img : string) :
  on_main g = true -> nth_error PRESET_POSITIONS i = Some p ->
  selectedImage (g_session g) = Some img -> img <> "" ->
  isGenerating (g_session g) = false ->
  exists g', gsteps env g [EvPreset i; EvGenerate] = Some g' /\
    last (g_log g') FxHasSelectedApiKey =
      FxGenerateVideos (build_request p (aspectRatio (g_session g)) img) /\
    req_prompt (build_request p (aspectRatio (g_session g)) img) =
      (prompt_template ++ p)%string.
Proof.
  intros Hm Hp Hi Hne Hg.
  pose (g1 := apply_unit (setPrompt p) g).
  assert (H1 : gstep env g (EvPreset i) = Some g1)
    by (simpl; rewrite Hm, Hp; reflexivity).
  assert (Hm1 : on_main g1 = true) by exact Hm.
  eexists; split.
  - cbn [gsteps]; rewrite H1; rewrite (gstep_generate env g1 img Hm1 Hi Hne Hg); reflexivity.
  - split; [cbn [g_log]; rewrite last_submit; reflexivity|].
    unfold build_request, or_else, truthy; simpl.
    rewrite (preset_nonempty i p Hp); reflexivity.
Qed.

(** ** The preview pane *)

(** For every state, the preview pane shows exactly one panel: the
    progress overlay while generating, else the video when there is one,
    else the uploaded image, else the placeholder. *)
Theorem preview_one_panel (s : Session) :
  preview_panels s =
  [if isGenerating s then PanelGenerating
   else if truthy (generatedVideoUrl s) then PanelVideo
   else if truthy (selectedImage s) then PanelReady
   else PanelPlaceholder].
Proof.
  unfold preview_panels.
  destruct (isGenerating s), (truthy (generatedVideoUrl s)), (truthy (selectedImage s));
    reflexivity.
Qed.

(** ** The job never rejects *)


(** ** What one resumption of the job changes *)

Lemma loading_message_in i : In (loading_message i) loadingMessages.
Proof.
  unfold loading_message; apply nth_In; apply Nat.mod_upper_bound; simpl; discriminate.
Qed.

Lemma erase_loading_all s1 s :
  erase_loading s1 = erase_loading s ->
  hasApiKey s1 = hasApiKey s /\ selectedImage s1 = selectedImage s /\
  prompt s1 = prompt s /\ aspectRatio s1 = aspectRatio s /\
  isGenerating s1 = isGenerating s /\
  generatedVideoUrl s1 = generatedVideoUrl s /\ error s1 = error s.
Proof.
  destruct s1, s; run_m; intro H; injection H; intros; subst; repeat split.
Qed.

Ltac job_cases H :=
  unfold job_step in H;
  match type of H with
  | option_map _ (resume _ ?aw ?r) = _ =>
      destruct aw as [|op0 i|i|url|resp0];
      destruct r as [[op|e]| |[op|e]|[resp|e]|[blob|e]];
      simpl in H; try discriminate; injection H as <-
  end;
  unfold loop_head, after_loop;
  try (match goal with
       | |- context [negb (done ?o)] =>
           destruct (negb (done o)); [|destruct (download_link o)]
       end);
  run_m;
  try (match goal with
       | |- context [err_message ?e] =>
           destruct (err_message e) as [msg|];
           [match goal with
            | |- context [includes ?m not_found_signature] =>
                destruct (includes m not_found_signature)
            end|]
       end);
  run_m.

(** A resumption that suspends again sets the status line, if at all, to
    one of the status texts. *)
Lemma job_step_pending env aw r m s s1 fx aw' :
  job_step env aw r = Some m -> m s = (s1, fx, Ok (Pending aw')) ->
  loadingStep s1 = loadingStep s \/ In (loadingStep s1) status_messages.
Proof.
  intro H; job_cases H.
  all: intro E; try discriminate; injection E; intros; subst; simpl.
  all: first
    [ left; reflexivity
    | right; match goal with
             | |- context [loading_message ?k] =>
                 pose proof (loading_message_in k) as Hin; simpl in Hin; tauto
             end
    | right; solve [intuition] ].
Qed.

(** A resumption never submits a request. *)
Lemma job_step_no_submit env aw r m s :
  job_step env aw r = Some m ->
  forall req, ~ In (FxGenerateVideos req) (snd (fst (m s))).
Proof.
  intro H; job_cases H; intros req; simpl; intuition discriminate.
Qed.

(** A rejected await goes straight to the [catch] handler. *)
Lemma rejection_step env aw r e m :
  rejection r = Some e -> job_step env aw r = Some m -> m = try_catch_finally (throw e).
Proof.
  unfold job_step;
    destruct aw as [|op0 i|i|url|resp0], r as [[op|e']| |[op|e']|[resp|e']|[blob|e']];
    simpl; intros He H; try discriminate; injection He as ->; injection H as <-;
    reflexivity.
Qed.

Lemma catch_idle e s :
  let s1 := final ((catch_block e ;;; finally_block) s) in
  isGenerating s1 = false /\ loadingStep s1 = "" /\ error_box_shown s1 = true /\
  selectedImage s1 = selectedImage s.
Proof.
  unfold error_box_shown; run_m.
  destruct (err_message e) as [msg|];
    [destruct (includes msg not_found_signature)|]; run_m;
    repeat split.
  unfold or_else, truthy; destruct (String.eqb msg "") eqn:E; simpl; [reflexivity|].
  rewrite E; reflexivity.
Qed.

(** Between two awaits the job changes nothing but the status line, and
    only to one of the status texts; a resumption that finishes the job
    leaves the page idle, with the progress overlay and its status line
    cleared. *)
Theorem job_step_status_only (env : Env) (aw : Await) (r : Reply) (m : M Next)
    (s : Session) :
  job_step env aw r = Some m ->
  let '(s1, _, x) := m s in
  (forall aw', x = Ok (Pending aw') ->
     hasApiKey s1 = hasApiKey s /\ selectedImage s1 = selectedImage s /\
     prompt s1 = prompt s /\ aspectRatio s1 = aspectRatio s /\
     isGenerating s1 = isGenerating s /\
     generatedVideoUrl s1 = generatedVideoUrl s /\ error s1 = error s /\
     (loadingStep s1 = loadingStep s \/ In (loadingStep s1) status_messages))
  /\ (x = Ok Finished -> isGenerating s1 = false /\ loadingStep s1 = "").
Proof.
  intro H.
  pose proof (job_step_shape env aw r m s H) as Hs.
  destruct (m s) as [[s1 fx1] x] eqn:Ems.
  destruct Hs as [[aw' [-> He]] | [[b [-> ->]] | [e [-> ->]]]].
  - split; [|discriminate].
    intros aw'' _.
    destruct (erase_loading_all s1 s He) as (H1 & H2 & H3 & H4 & H5 & H6 & H7).
    repeat (split; [assumption|]).
    exact (job_step_pending env aw r m s s1 fx1 aw' H Ems).
  - split; [intros aw' Hx; discriminate|intros _; run_m; split; reflexivity].
  - split; [intros aw' Hx; discriminate|intros _].
    destruct (catch_idle e s) as (A & B & _); split; assumption.
Qed.

(** ** A whole run *)

Lemma run_job_idle env w fuel : forall aw s s' fx,
  run_job env w fuel aw s = Some (s', fx) ->
  isGenerating s' = false /\ loadingStep s' = "" /\
  selectedImage s' = selectedImage s /\
  (error s' = error s \/ error_box_shown s' = true).
Proof.
  induction fuel as [|f IH]; intros aw s s' fx Hrun; [discriminate|].
  rewrite run_job_S in Hrun.
  destruct (job_step env aw (answer w aw)) as [m|] eqn:Hstep; [|discriminate].
  pose proof (job_step_shape env aw _ m s Hstep) as Hshape.
  destruct (m s) as [[s1 fx1] x].
  destruct Hshape as [[aw' [-> He]] | [[b [-> ->]] | [e [-> ->]]]].
  - rewrite continue_pending in Hrun.
    destruct (run_job env w f aw' s1) as [[s2 fx2]|] eqn:Hr; [|discriminate].
    injection Hrun as <- _.
    destruct (erase_loading_all s1 s He) as (_ & Hi & _ & _ & _ & _ & Herr).
    destruct (IH aw' s1 s2 fx2 Hr) as (A & B & C & D).
    split; [exact A|split; [exact B|split; [congruence|]]].
    destruct D as [D|D]; [left; congruence|right; exact D].
  - injection Hrun as <- _. run_m. repeat split. left; reflexivity.
  - injection Hrun as <- _.
    destruct (catch_idle e s) as (A & B & C & D).
    repeat (split; [assumption|]); right; exact C.
Qed.

(** Every completed run leaves the page idle: the progress overlay and its
    status line are cleared, the Generate button is enabled again, and the
    error is either absent or shown in the error box (never an empty
    message, which the box would hide). *)
Theorem run_ends_idle (env : Env) (w : World) (fuel : nat) (s s' : Session)
    (fx : list Effect) :
  truthy (selectedImage s) = true ->
  generate_run env w fuel s = Some (s', fx) ->
  isGenerating s' = false /\ loadingStep s' = "" /\
  generate_disabled s' = false /\ (error s' = None \/ error_box_shown s' = true).
Proof.
  intros Ht Hrun.
  destruct (truthy_some _ Ht) as [img [Hi Hne]].
  rewrite (generate_run_started env w fuel s img Hi Hne) in Hrun.
  destruct (run_job env w fuel AwGenerateVideos (started s)) as [[s2 fx2]|] eqn:Hr;
    [|discriminate].
  injection Hrun as <- _.
  destruct (run_job_idle env w fuel _ _ _ _ Hr) as (A & B & C & D).
  split; [exact A|split; [exact B|split]].
  - unfold generate_disabled; rewrite A, C; simpl; rewrite Ht; reflexivity.
  - exact D.
Qed.

(** ** Page invariants: the status line and the selected format *)

Lemma catch_keeps e s :
  let s1 := final ((catch_block e ;;; finally_block) s) in
  aspectRatio s1 = aspectRatio s /\ prompt s1 = prompt s.
Proof.
  run_m; destruct (err_message e) as [msg|];
    [destruct (includes msg not_found_signature)|]; run_m; split; reflexivity.
Qed.

Lemma gstep_generate_cases env g g' :
  gstep env g EvGenerate = Some g' ->
  exists img, on_main g = true /\ selectedImage (g_session g) = Some img /\ img <> "" /\
    isGenerating (g_session g) = false /\
    g' = mkGlobal (started (g_session g)) (g_jobs g ++ [AwGenerateVideos])
           (g_check_pending g) (g_log g ++ submit_fx (g_session g) img).
Proof.
  intro H.
  destruct (on_main g && negb (generate_disabled (g_session g))) eqn:En;
    [|simpl in H; rewrite En in H; discriminate].
  apply andb_true_iff in En; destruct En as [Hm Hd]; apply negb_true_iff in Hd.
  destruct (enabled_generate g Hd) as [Ht Hg].
  destruct (truthy_some _ Ht) as [img [Hi Hne]].
  rewrite (gstep_generate env g img Hm Hi Hne Hg) in H; injection H as <-.
  exists img; repeat (split; [assumption|]); reflexivity.
Qed.

Ltac session_event H :=
  unfold apply_unit, apply_m, checkApiKey_settled, handleSelectKey in H |- *;
  run_m.

Lemma gstep_status_inv env g ev g' :
  single_job g -> status_inv g -> gstep env g ev = Some g' -> status_inv g'.
Proof.
  intros Hsj Hinv H; destruct ev as [r| |d|p|i|i| |j r|].
  - simpl in H; destruct (g_check_pending g); [|discriminate]; injection H as <-.
    destruct r; unfold status_inv in *; session_event Hinv; exact Hinv.
  - simpl in H; destruct (on_main g); [discriminate|]; injection H as <-.
    unfold status_inv in *; session_event Hinv; exact Hinv.
  - simpl in H; destruct (on_main g); [|discriminate]; injection H as <-.
    unfold status_inv in *; session_event Hinv; exact Hinv.
  - simpl in H; destruct (on_main g); [|discriminate]; injection H as <-.
    unfold status_inv in *; session_event Hinv; exact Hinv.
  - simpl in H; destruct (on_main g), (nth_error PRESET_POSITIONS i); try discriminate.
    injection H as <-; unfold status_inv in *; session_event Hinv; exact Hinv.
  - simpl in H; destruct (on_main g), (nth_error ASPECT_RATIOS i) as [[? ?]|];
      try discriminate.
    injection H as <-; unfold status_inv in *; session_event Hinv; exact Hinv.
  - destruct (gstep_generate_cases env g g' H) as (img & _ & _ & _ & _ & ->).
    unfold status_inv; simpl; split; [intros _; split; [reflexivity|left; reflexivity]|].
    discriminate.
  - destruct Hsj as [Hlen Hiff].
    simpl in H.
    destruct (nth_error (g_jobs g) j) as [aw|] eqn:Hj; [|discriminate].
    destruct (job_step env aw r) as [m|] eqn:Hstep; [|discriminate].
    assert (Hgen : isGenerating (g_session g) = true).
    { apply Hiff; intro E; rewrite E in Hj; destruct j; discriminate. }
    destruct (proj1 Hinv Hgen) as [Herr Hload].
    pose proof (job_step_shape env aw r m (g_session g) Hstep) as Hshape.
    unfold apply_m in H.
    destruct (m (g_session g)) as [[s1 fx1] x] eqn:Ems.
    injection H as <-; unfold status_inv; cbn [g_session].
    destruct Hshape as [[aw' [-> He]] | [[b [-> ->]] | [e [-> ->]]]].
    + destruct (erase_loading_all s1 _ He) as (_ & _ & _ & _ & Hg1 & _ & He1).
      rewrite Hg1, Hgen; split; [intros _|discriminate].
      split; [congruence|].
      destruct (job_step_pending env aw r m (g_session g) s1 fx1 aw' Hstep Ems) as [L|L];
        [rewrite L; exact Hload|exact L].
    + run_m; split; intro; [discriminate|reflexivity].
    + destruct (catch_idle e (g_session g)) as (A & B & _).
      split; intro; [congruence|exact B].
  - simpl in H; injection H as <-; unfold status_inv; simpl.
    split; [discriminate|reflexivity].
Qed.

(** In every reachable page state: while a job runs, no error is shown
    and the status line shows one of the status texts (so it is never
    blank, and never the transient "Initializing AI engine..." that is
    overwritten before the first await); when no job runs, the status line
    is blank. *)
Theorem status_line_invariant (env : Env) (g : Global) :
  reachable env g ->
  (isGenerating (g_session g) = true ->
     error (g_session g) = None /\ In (loadingStep (g_session g)) status_messages /\
     loadingStep (g_session g) <> "Initializing AI engine...")
  /\ (isGenerating (g_session g) = false -> loadingStep (g_session g) = "").
Proof.
  intro Hr.
  assert (Hinv : status_inv g).
  { induction Hr as [|g ev g' Hr IH Hstep].
    - unfold status_inv; simpl; split; [discriminate|reflexivity].
    - exact (gstep_status_inv env g ev g' (reachable_single_job env g Hr) IH Hstep). }
  destruct Hinv as [Hon Hoff]; split; [|exact Hoff].
  intro Hg; destruct (Hon Hg) as [He Hin]; split; [exact He|split; [exact Hin|]].
  intro E; rewrite E in Hin; simpl in Hin; intuition discriminate.
Qed.

Lemma log_app_no_submit (P : GenerateVideosRequest -> Prop) (l fx : list Effect) :
  (forall req, In (FxGenerateVideos req) l -> P req) ->
  (forall req, ~ In (FxGenerateVideos req) fx) ->
  forall req, In (FxGenerateVideos req) (l ++ fx) -> P req.
Proof.
  intros Hl Hfx req Hin; apply in_app_or in Hin; destruct Hin as [Hin|Hin];
    [exact (Hl req Hin)|exfalso; exact (Hfx req Hin)].
Qed.

Lemma gstep_aspect_inv env g ev g' :
  aspect_inv g -> gstep env g ev = Some g' -> aspect_inv g'.
Proof.
  intros [Ha Hlog] H; destruct ev as [r| |d|p|i|i| |j r|].
  - simpl in H; destruct (g_check_pending g); [|discriminate]; injection H as <-.
    destruct r; unfold aspect_inv; session_event Ha; (split; [exact Ha|]);
      apply log_app_no_submit; [exact Hlog| |exact Hlog|];
      intros req; simpl; intuition discriminate.
  - simpl in H; destruct (on_main g); [discriminate|]; injection H as <-.
    unfold aspect_inv; session_event Ha; split; [exact Ha|].
    apply log_app_no_submit; [exact Hlog|intros req; simpl; intuition discriminate].
  - simpl in H; destruct (on_main g); [|discriminate]; injection H as <-.
    unfold aspect_inv; session_event Ha; split; [exact Ha|].
    apply log_app_no_submit; [exact Hlog|intros req; simpl; intuition discriminate].
  - simpl in H; destruct (on_main g); [|discriminate]; injection H as <-.
    unfold aspect_inv; session_event Ha; split; [exact Ha|].
    apply log_app_no_submit; [exact Hlog|intros req; simpl; intuition discriminate].
  - simpl in H; destruct (on_main g), (nth_error PRESET_POSITIONS i); try discriminate.
    injection H as <-.
    unfold aspect_inv; session_event Ha; split; [exact Ha|].
    apply log_app_no_submit; [exact Hlog|intros req; simpl; intuition discriminate].
  - simpl in H; destruct (on_main g); [|discriminate].
    destruct (nth_error ASPECT_RATIOS i) as [[l v]|] eqn:Hn; [|discriminate].
    injection H as <-.
    unfold aspect_inv; session_event Ha; split.
    + apply (in_map snd ASPECT_RATIOS (l, v)); eapply nth_error_In; exact Hn.
    + apply log_app_no_submit; [exact Hlog|intros req; simpl; intuition discriminate].
  - destruct (gstep_generate_cases env g g' H) as (img & _ & _ & _ & _ & ->).
    unfold aspect_inv; cbn [g_session g_log]; split; [exact Ha|].
    intros req Hin; apply in_app_or in Hin; destruct Hin as [Hin|Hin];
      [exact (Hlog req Hin)|].
    simpl in Hin; destruct Hin as [E|[E|[E|[E|[E|[]]]]]]; try discriminate.
    injection E as <-; exact Ha.
  - simpl in H.
    destruct (nth_error (g_jobs g) j) as [aw|] eqn:Hj; [|discriminate].
    destruct (job_step env aw r) as [m|] eqn:Hstep; [|discriminate].
    pose proof (job_step_shape env aw r m (g_session g) Hstep) as Hshape.
    pose proof (job_step_no_submit env aw r m (g_session g) Hstep) as Hno.
    unfold apply_m in H.
    destruct (m (g_session g)) as [[s1 fx1] x] eqn:Ems.
    injection H as <-; unfold aspect_inv; cbn [g_session g_log].
    split; [|exact (log_app_no_submit _ _ _ Hlog Hno)].
    destruct Hshape as [[aw' [-> He]] | [[b [-> ->]] | [e [-> ->]]]].
    + destruct (erase_loading_all s1 _ He) as (_ & _ & _ & Ha1 & _).
      rewrite Ha1; exact Ha.
    + run_m; exact Ha.
    + destruct (catch_keeps e (g_session g)) as [Ha1 _]; rewrite Ha1; exact Ha.
  - simpl in H; injection H as <-; unfold aspect_inv; simpl.
    split; [left; reflexivity|intros req [E|[]]; discriminate].
Qed.

(** In every reachable page state exactly one Format button is
    highlighted, and every request sent so far asked for one of the two
    offered aspect ratios. *)
Theorem aspect_one_highlighted (env : Env) (g : Global) :
  reachable env g ->
  length (filter (fun b => b) (aspect_selected (g_session g))) = 1 /\
  (forall req, In (FxGenerateVideos req) (g_log g) ->
     In (req_aspectRatio req) (map snd ASPECT_RATIOS)).
Proof.
  intro Hr.
  assert (Hinv : aspect_inv g).
  { induction Hr as [|g ev g' Hr IH Hstep].
    - unfold aspect_inv; simpl; split; [left; reflexivity|intros req [E|[]]; discriminate].
    - exact (gstep_aspect_inv env g ev g' IH Hstep). }
  destruct Hinv as [Ha Hlog]; split; [|exact Hlog].
  unfold aspect_selected; simpl in Ha.
  destruct Ha as [E|[E|[]]]; rewrite <- E; reflexivity.
Qed.

(** ** The credential gate *)

(** The mount-time key check can settle after the user has selected a key
    on the gate screen; its answer then overrides the selection, so a
    late [false] sends the page back to the gate screen. *)
Theorem key_check_overrides_selection (env : Env) (g : Global) (b : bool) :
  g_check_pending g = true -> on_main g = false ->
  exists g', gsteps env g [EvSelectKey; EvCheckKeySettled (Ok b)] = Some g' /\
    hasApiKey (g_session g') = b /\
    render (g_session g') = (if b then MainScreen else GateScreen).
Proof.
  intros Hp Hm.
  assert (H1 : gstep env g EvSelectKey = Some (apply_unit handleSelectKey g))
    by (simpl; rewrite Hm; reflexivity).
  destruct g as [s jobs pend log]; simpl in Hp; subst pend.
  eexists; split.
  - cbn [gsteps]; rewrite H1; simpl; reflexivity.
  - session_event Hm.
    split; [reflexivity|destruct b; reflexivity].
Qed.

(** After a job fails with the not-found error, the page shows the key
    gate and no job is left; selecting a key again brings back the main
    screen, still showing the key-expired message, with the image, the
    prompt and any earlier result kept and Generate usable again. *)
Theorem key_expiry_then_reselect (env : Env) (g : Global) (aw : Await) (r : Reply)
    (e : Error) (m : M Next) :
  g_jobs g = [aw] -> rejection r = Some e -> is_not_found e = true ->
  job_step env aw r = Some m ->
  exists g1 g2,
    gstep env g (EvJob 0 r) = Some g1 /\
    render (g_session g1) = GateScreen /\ g_jobs g1 = [] /\
    gstep env g1 EvSelectKey = Some g2 /\
    render (g_session g2) = MainScreen /\
    error (g_session g2) = Some key_expired_message /\
    selectedImage (g_session g2) = selectedImage (g_session g) /\
    prompt (g_session g2) = prompt (g_session g) /\
    generatedVideoUrl (g_session g2) = generatedVideoUrl (g_session g) /\
    isGenerating (g_session g2) = false.
Proof.
  intros Hj Hr Hnf Hs.
  pose proof (rejection_step env aw r e m Hr Hs) as Hm; subst m.
  unfold is_not_found in Hnf.
  destruct (err_message e) as [msg|] eqn:Em; [|discriminate].
  destruct g as [s jobs pend log]; simpl in Hj; subst jobs.
  assert (Hc : try_catch_finally (throw e) s =
               (mkSession false (selectedImage s) (prompt s) (aspectRatio s) false ""
                  (generatedVideoUrl s) (Some key_expired_message),
                [FxConsoleError None e; FxSetHasApiKey false;
                 FxSetError (Some key_expired_message);
                 FxSetIsGenerating false; FxSetLoadingStep ""],
                Ok Finished)).
  { run_m; rewrite Em, Hnf; run_m; reflexivity. }
  assert (H1 : gstep env (mkGlobal s [aw] pend log) (EvJob 0 r) =
               Some (mkGlobal
                       (mkSession false (selectedImage s) (prompt s) (aspectRatio s) false ""
                          (generatedVideoUrl s) (Some key_expired_message))
                       [] pend
                       (log ++ [FxConsoleError None e; FxSetHasApiKey false;
                                FxSetError (Some key_expired_message);
                                FxSetIsGenerating false; FxSetLoadingStep ""]))).
  { simpl; rewrite Hs; unfold apply_m; simpl; rewrite Hc; reflexivity. }
  do 2 eexists; split; [exact H1|].
  split; [reflexivity|split; [reflexivity|]].
  split; [reflexivity|].
  repeat split.
Qed.

(** ** Uploading an image *)

(** * Witnesses *)

Lemma poll_loop_then_download_witness :
  generate_run sample_env sample_world 7 sample_session =
  Some (mkSession true (Some sample_image) "" "9:16" false ""
          (Some (createObjectURL sample_env "video-bytes")) None,
        submit_fx sample_session sample_image
        ++ concat (map (poll_iteration_fx sample_ops) (seq 0 2))
        ++ download_fx sample_env
             ("https://files/v1?alt=media" ++ "&key=" ++ api_key sample_env)%string
             "response" "video-bytes").
Proof.
  apply (poll_loop_then_download sample_env sample_world sample_session sample_image
           2 sample_ops "https://files/v1?alt=media" "response" "video-bytes" 7).
  - reflexivity.
  - discriminate.
  - intros j _; reflexivity.
  - intros j Hj; destruct j as [|[|j]]; [reflexivity | reflexivity | lia].
  - reflexivity.
  - reflexivity.
  - reflexivity.
  - reflexivity.
  - lia.
Defined.

Lemma poll_loop_unbounded_witness :
  generate_run sample_env stalled_world 1000 sample_session = None.
Proof.
  apply (proj2 (poll_loop_unbounded sample_env stalled_world sample_session sample_image
                  eq_refl ltac:(discriminate))).
  intro k; exists sample_pending_op; split; reflexivity.
Defined.

Lemma failure_handling_witness :
  let '(s1, _, x) := try_catch_finally (throw not_found_error) sample_session in
  x = Ok Finished /\ isGenerating s1 = false /\
  generatedVideoUrl s1 = generatedVideoUrl sample_session /\
  (if is_not_found not_found_error
   then hasApiKey s1 = false /\ error s1 = Some key_expired_message
   else hasApiKey s1 = hasApiKey sample_session /\
        error s1 = Some (match err_message not_found_error with
                         | Some msg => if String.eqb msg "" then generic_error_message
                                       else msg
                         | None => generic_error_message
                         end)).
Proof.
  exact (failure_handling sample_env (AwGetVideosOperation 1)
           (RGetVideosOperation (Raise not_found_error)) not_found_error
           (try_catch_finally (throw not_found_error)) sample_session
           eq_refl eq_refl).
Defined.

Lemma no_video_fails_witness :
  let '(s1, _, x) := try_catch_finally (loop_head sample_env no_video_op 3) sample_session in
  x = Ok Finished /\ isGenerating s1 = false /\
  error s1 = Some no_video_message /\ hasApiKey s1 = hasApiKey sample_session /\
  generatedVideoUrl s1 = generatedVideoUrl sample_session.
Proof.
  exact (no_video_fails sample_env (AwGetVideosOperation 3)
           (RGetVideosOperation (Ok no_video_op)) no_video_op
           (try_catch_finally (loop_head sample_env no_video_op 3)) sample_session
           eq_refl eq_refl eq_refl eq_refl).
Defined.

Lemma run_sets_result_or_error_witness :
  exists s' fx, generate_run sample_env sample_world 7 sample_session = Some (s', fx) /\
  error s' = None /\ exists b, generatedVideoUrl s' = Some (createObjectURL sample_env b).
Proof.
  do 2 eexists; split; [vm_compute; reflexivity|].
  destruct (run_sets_result_or_error sample_env sample_world 7 sample_session _ _
              eq_refl ltac:(vm_compute; reflexivity)) as [[H | [Hne _]] Hfresh].
  - exact H.
  - exfalso; destruct (Hfresh eq_refl) as [He | Hu];
      [exact (Hne He) | discriminate Hu].
Defined.

Lemma one_generation_job_at_a_time_witness :
  exists g, gsteps sample_env initial_global [EvSelectKey; EvUpload sample_image; EvGenerate]
              = Some g /\
            length (g_jobs g) <= 1 /\ gstep sample_env g EvGenerate = None.
Proof.
  destruct (gsteps sample_env initial_global [EvSelectKey; EvUpload sample_image; EvGenerate])
    as [g|] eqn:E; [|vm_compute in E; discriminate E].
  exists g; split; [reflexivity|].
  pose proof (gsteps_reachable sample_env _ initial_global g (reachable_init sample_env) E) as HR.
  destruct (one_generation_job_at_a_time sample_env g HR) as (Hlen & _ & _ & Hdis & _).
  split; [exact Hlen|].
  apply Hdis.
  vm_compute in E; injection E as <-; reflexivity.
Defined.

Lemma blank_prompt_request_witness :
  exists g req,
    gsteps sample_env initial_global [EvSelectKey; EvUpload sample_image; EvGenerate] = Some g /\
    last (g_log g) FxHasSelectedApiKey = FxGenerateVideos req /\
    req_prompt req =
      "Animate this character: Natural movement in high quality commercial lighting" /\
    req_aspectRatio req = "9:16".
Proof.
  exact (blank_prompt_request sample_env sample_image ltac:(discriminate)).
Defined.

Lemma generate_clears_error_keeps_result_witness :
  exists g', gstep sample_env (mkGlobal (mkSession true (Some sample_image) "" "9:16" false ""
                                            (Some "blob:old") (Some "earlier failure"))
                                 [] false []) EvGenerate = Some g' /\
             error (g_session g') = None /\ generatedVideoUrl (g_session g') = Some "blob:old".
Proof.
  destruct (gstep sample_env (mkGlobal (mkSession true (Some sample_image) "" "9:16" false ""
                                          (Some "blob:old") (Some "earlier failure"))
                               [] false []) EvGenerate) as [g'|] eqn:E;
    [|vm_compute in E; discriminate E].
  exists g'; split; [reflexivity|].
  destruct (generate_clears_error_keeps_result sample_env _ _ E) as (_ & He & Hu & _).
  split; [exact He | exact Hu].
Defined.

Lemma request_prompt_text_witness :
  exists req,
    In (FxGenerateVideos req)
       (snd (fst (generateAnimation
                    (mkSession true (Some sample_image) "  " "16:9" false "" None None)))) /\
    req_prompt req = "Animate this character:   ".
Proof.
  destruct (request_prompt_text (mkSession true (Some sample_image) "  " "16:9" false "" None None)
              sample_image eq_refl ltac:(discriminate)) as [req [Hin Hp]].
  exists req; split; [exact Hin | rewrite Hp; reflexivity].
Defined.

Lemma build_request_data_url_witness :
  req_imageBytes (build_request "" "9:16" ("data:" ++ "image/png" ++ ";base64," ++ "AAAA"))
    = Some "AAAA" /\
  req_mimeType (build_request "" "9:16" ("data:" ++ "image/png" ++ ";base64," ++ "AAAA"))
    = Some "image/png".
Proof.
  exact (build_request_data_url "" "9:16" "image/png" "AAAA" eq_refl eq_refl eq_refl eq_refl).
Defined.

Lemma request_without_comma_witness :
  exists req,
    In (FxGenerateVideos req)
       (snd (fst (generateAnimation
                    (mkSession true (Some "not-a-data-url") "" "9:16" false "" None None)))) /\
    req_imageBytes req = None.
Proof.
  exact (request_without_comma (mkSession true (Some "not-a-data-url") "" "9:16" false "" None None)
           "not-a-data-url" eq_refl ltac:(discriminate) eq_refl).
Defined.

Lemma preset_then_generate_witness :
  exists g', gsteps sample_env sample_global [EvPreset 3; EvGenerate] = Some g' /\
    last (g_log g') FxHasSelectedApiKey =
      FxGenerateVideos (build_request "Doing an energetic 'thumbs up' and winking at the camera"
                          "9:16" sample_image) /\
    req_prompt (build_request "Doing an energetic 'thumbs up' and winking at the camera"
                  "9:16" sample_image) =
      (prompt_template ++ "Doing an energetic 'thumbs up' and winking at the camera")%string.
Proof.
  exact (preset_then_generate sample_env sample_global 3
           "Doing an energetic 'thumbs up' and winking at the camera" sample_image
           eq_refl eq_refl eq_refl ltac:(discriminate) eq_refl).
Defined.

Lemma job_step_status_only_witness :
  let '(s1, _, x) := try_catch_finally (loop_head sample_env sample_pending_op 1)
                       (started sample_session) in
  (forall aw', x = Ok (Pending aw') ->
     hasApiKey s1 = hasApiKey (started sample_session) /\
     selectedImage s1 = selectedImage (started sample_session) /\
     prompt s1 = prompt (started sample_session) /\
     aspectRatio s1 = aspectRatio (started sample_session) /\
     isGenerating s1 = isGenerating (started sample_session) /\
     generatedVideoUrl s1 = generatedVideoUrl (started sample_session) /\
     error s1 = error (started sample_session) /\
     (loadingStep s1 = loadingStep (started sample_session) \/
      In (loadingStep s1) status_messages))
  /\ (x = Ok Finished -> isGenerating s1 = false /\ loadingStep s1 = "").
Proof.
  exact (job_step_status_only sample_env (AwGetVideosOperation 1)
           (RGetVideosOperation (Ok sample_pending_op))
           (try_catch_finally (loop_head sample_env sample_pending_op 1))
           (started sample_session) eq_refl).
Defined.

Lemma run_ends_idle_witness :
  exists s' fx, generate_run sample_env empty_message_world 3 sample_session = Some (s', fx) /\
    isGenerating s' = false /\ loadingStep s' = "" /\
    generate_disabled s' = false /\ (error s' = None \/ error_box_shown s' = true).
Proof.
  destruct (generate_run sample_env empty_message_world 3 sample_session)
    as [[s' fx]|] eqn:E; [|vm_compute in E; discriminate E].
  exists s', fx; split; [reflexivity|].
  exact (run_ends_idle sample_env empty_message_world 3 sample_session s' fx eq_refl E).
Defined.

Lemma status_line_invariant_witness :
  exists g,
    gsteps sample_env initial_global
      [EvSelectKey; EvUpload sample_image; EvGenerate;
       EvJob 0 (RGenerateVideos (Ok sample_pending_op))] = Some g /\
    (isGenerating (g_session g) = true ->
       error (g_session g) = None /\ In (loadingStep (g_session g)) status_messages /\
       loadingStep (g_session g) <> "Initializing AI engine...")
    /\ (isGenerating (g_session g) = false -> loadingStep (g_session g) = "").
Proof.
  destruct (gsteps sample_env initial_global
              [EvSelectKey; EvUpload sample_image; EvGenerate;
               EvJob 0 (RGenerateVideos (Ok sample_pending_op))]) as [g|] eqn:E;
    [|vm_compute in E; discriminate E].
  exists g; split; [reflexivity|].
  exact (status_line_invariant sample_env g
           (gsteps_reachable sample_env _ initial_global g (reachable_init sample_env) E)).
Defined.

Lemma aspect_one_highlighted_witness :
  exists g,
    gsteps sample_env initial_global
      [EvSelectKey; EvAspect 1; EvUpload sample_image; EvGenerate] = Some g /\
    length (filter (fun b => b) (aspect_selected (g_session g))) = 1 /\
    (forall req, In (FxGenerateVideos req) (g_log g) ->
       In (req_aspectRatio req) (map snd ASPECT_RATIOS)).
Proof.
  destruct (gsteps sample_env initial_global
              [EvSelectKey; EvAspect 1; EvUpload sample_image; EvGenerate]) as [g|] eqn:E;
    [|vm_compute in E; discriminate E].
  exists g; split; [reflexivity|].
  exact (aspect_one_highlighted sample_env g
           (gsteps_reachable sample_env _ initial_global g (reachable_init sample_env) E)).
Defined.

Lemma key_check_overrides_selection_witness :
  exists g', gsteps sample_env initial_global [EvSelectKey; EvCheckKeySettled (Ok false)]
               = Some g' /\
    hasApiKey (g_session g') = false /\ render (g_session g') = GateScreen.
Proof.
  exact (key_check_overrides_selection sample_env initial_global false eq_refl eq_refl).
Defined.

Lemma key_expiry_then_reselect_witness :
  exists g1 g2,
    gstep sample_env expiring_global (EvJob 0 (RGenerateVideos (Raise not_found_error)))
      = Some g1 /\
    render (g_session g1) = GateScreen /\ g_jobs g1 = [] /\
    gstep sample_env g1 EvSelectKey = Some g2 /\
    render (g_session g2) = MainScreen /\
    error (g_session g2) = Some key_expired_message /\
    selectedImage (g_session g2) = selectedImage (g_session expiring_global) /\
    prompt (g_session g2) = prompt (g_session expiring_global) /\
    generatedVideoUrl (g_session g2) = generatedVideoUrl (g_session expiring_global) /\
    isGenerating (g_session g2) = false.
Proof.
  exact (key_expiry_then_reselect sample_env expiring_global AwGenerateVideos
           (RGenerateVideos (Raise not_found_error)) not_found_error
           (try_catch_finally (throw not_found_error)) eq_refl eq_refl eq_refl eq_refl).
Defined.
